(** * PolyglotLab: the translation core of [app.py]

    A shallow embedding of the orchestration layer of [app.py]: the language
    registry [LANG_CODES], the support matrix [MODEL_MAP], the lazily filled
    cache [_translation_pipelines] behind [get_translation_pipeline], the
    style hint composer [_apply_style_hints], [translate_text] and
    [back_translate].

    Python values are modelled as follows.
    - A [str] is a Rocq [string] holding its UTF-8 encoding.  Equality,
      emptiness, concatenation and dictionary lookup of [str] values agree
      with the same operations on the encodings.
    - A [dict] is a [gmap]; [d[k]] raises [KeyError] on a missing key.
    - An exception is a value of [exn]; a call returns a [result] together
      with the module state it leaves behind, also when it raises.
    - The module state is the dictionary [_translation_pipelines] and the
      log of the calls made to the external loader [pipeline].
    - The transformers library is outside the program: the loader and the
      pipelines it gives are taken as functions, the same for every
      development below; a load or a generation that fails is not
      modelled. *)

From Stdlib Require Import ZArith Ascii QArith.QArith_base.
From stdpp Require Import gmap strings list fin_maps.

Local Open Scope Z_scope.

(** ** Python runtime *)

Module Py.

(** Keys as they appear in a [KeyError]. *)
Inductive dict_key :=
  | KStr (s : string)
  | KPair (a b : string).

Inductive exn :=
  | KeyError (k : dict_key)
  | ValueError (msg : string).

Inductive result (A : Type) :=
  | Ok (a : A)
  | Raise (e : exn).
Global Arguments Ok {A} a.
Global Arguments Raise {A} e.

(** Truth value of a [str]: [not text] holds of the empty string only. *)
Definition truthy (s : string) : bool :=
  match s with
  | "" => false
  | String _ _ => true
  end.

(** [x or ""] where [x] is a [str] or [None]. *)
Definition or_empty (x : option string) : string :=
  match x with
  | Some s => if truthy s then s else ""
  | None => ""
  end.

(** [sep.join(l)] *)
Fixpoint join (sep : string) (l : list string) : string :=
  match l with
  | [] => ""
  | [x] => x
  | x :: rest => x +:+ sep +:+ join sep rest
  end.

(** *** [str.strip()]

    [strip] removes the leading and trailing characters [c] with
    [c.isspace()].  These are the code points
    U+0009..U+000D, U+001C..U+0020, U+0085, U+00A0, U+1680,
    U+2000..U+200A, U+2028, U+2029, U+202F, U+205F and U+3000, listed
    here by their UTF-8 encodings. *)

Definition utf8 (bytes : list nat) : string :=
  foldr (λ b s, String (ascii_of_nat b) s) "" bytes.

Definition WHITESPACE : list string :=
  utf8 <$>
    [ [9]; [10]; [11]; [12]; [13]; [28]; [29]; [30]; [31]; [32];
      [194; 133]; [194; 160]; [225; 154; 128];
      [226; 128; 128]; [226; 128; 129]; [226; 128; 130]; [226; 128; 131];
      [226; 128; 132]; [226; 128; 133]; [226; 128; 134]; [226; 128; 135];
      [226; 128; 136]; [226; 128; 137]; [226; 128; 138];
      [226; 128; 168]; [226; 128; 169]; [226; 128; 175];
      [226; 129; 159]; [227; 128; 128] ]%nat.

(** [after w s] is what follows [w] in [s] when [s] starts with [w]. *)
Fixpoint after (w s : string) : option string :=
  match w, s with
  | "", _ => Some s
  | String a w', String b s' => if decide (a = b) then after w' s' else None
  | String _ _, "" => None
  end.

(** Removes one leading character of the table, if there is one. *)
Fixpoint drop_one (table : list string) (s : string) : option string :=
  match table with
  | [] => None
  | w :: table' =>
      match after w s with
      | Some rest => Some rest
      | None => drop_one table' s
      end
  end.

(** Removes leading characters of the table, at most [n] of them. *)
Fixpoint drop_leading (table : list string) (n : nat) (s : string) : string :=
  match n with
  | O => s
  | S n' =>
      match drop_one table s with
      | Some rest => drop_leading table n' rest
      | None => s
      end
  end.

(** A string has no more characters than bytes. *)
Definition lstrip (s : string) : string :=
  drop_leading WHITESPACE (String.length s) s.

Definition rstrip (s : string) : string :=
  String.rev (drop_leading (String.rev <$> WHITESPACE) (String.length s) (String.rev s)).

Definition strip (s : string) : string := rstrip (lstrip s).

(** A text made of whitespace characters only. *)
Inductive blank : string → Prop :=
  | blank_empty : blank ""
  | blank_space w s : w ∈ WHITESPACE → blank s → blank (w +:+ s).

(** [s.find(sub)], counted in bytes: the first place where [sub] occurs. *)
Fixpoint find_from (i : nat) (sub s : string) : option nat :=
  match after sub s with
  | Some _ => Some i
  | None =>
      match s with
      | "" => None
      | String _ s' => find_from (S i) sub s'
      end
  end.

Definition find (sub s : string) : option nat := find_from 0 sub s.

(** *** Dictionaries *)

(** [k in d] *)
Definition contains `{Countable K} {V} (d : gmap K V) (k : K) : bool :=
  bool_decide (is_Some (d !! k)).

(** [d[k]], with [repr] naming the key in the [KeyError]. *)
Definition getitem `{Countable K} {V} (repr : K → dict_key) (d : gmap K V) (k : K) : result V :=
  match d !! k with
  | Some v => Ok v
  | None => Raise (KeyError (repr k))
  end.

Definition pair_key (k : string * string) : dict_key := KPair k.1 k.2.

End Py.

Import Py.

(** ** Module state and effects *)

(** A loaded translation pipeline: [translator(text, max_length=n)] gives
    [out], and the model keeps [out[0]["translation_text"]]. *)
Definition Translator : Type := string → Z → string.

(** The module globals that change while the program runs, and the log of
    the calls [pipeline(task, model=model_name)] made so far. *)
Record state := State {
  _translation_pipelines : gmap (string * string) Translator;
  pipeline_calls : list (string * string);
}.

(** A call runs in a state and leaves a state, whether it returns or raises. *)
Definition M (A : Type) : Type := state → result A * state.

Definition ret {A} (a : A) : M A := λ σ, (Ok a, σ).

Definition raise {A} (e : exn) : M A := λ σ, (Raise e, σ).

Definition bind {A B} (m : M A) (f : A → M B) : M B :=
  λ σ, match m σ with
       | (Ok a, σ') => f a σ'
       | (Raise e, σ') => (Raise e, σ')
       end.

(** A pure computation that may raise, such as [d[k]]. *)
Definition lift {A} (r : result A) : M A := λ σ, (r, σ).

(** [try: m  except ValueError as e: ...]: the handler's case is [inr (str e)];
    any other exception passes through. *)
Definition try_ValueError {A} (m : M A) : M (A + string) :=
  λ σ, match m σ with
       | (Ok a, σ') => (Ok (inl a), σ')
       | (Raise (ValueError msg), σ') => (Ok (inr msg), σ')
       | (Raise e, σ') => (Raise e, σ')
       end.

Definition get_pipelines : M (gmap (string * string) Translator) :=
  λ σ, (Ok (_translation_pipelines σ), σ).

(** [_translation_pipelines[key] = t] *)
Definition set_pipeline (key : string * string) (t : Translator) : M unit :=
  λ σ, (Ok tt, State (<[key := t]> (_translation_pipelines σ)) (pipeline_calls σ)).

Notation "'let!' x ':=' m 'in' k" := (bind m (λ x, k))
  (at level 10, x name, m at level 100, k at level 200).

(** ** Language and model configuration *)

Definition LANG_CODES : gmap string string :=
  list_to_map
    [ ("English", "en");
      ("French", "fr");
      ("German", "de");
      ("Spanish", "es");
      ("Swedish", "sv") ].

Definition MODEL_MAP : gmap (string * string) string :=
  list_to_map
    [ (("en", "fr"), "Helsinki-NLP/opus-mt-en-fr");
      (("fr", "en"), "Helsinki-NLP/opus-mt-fr-en");
      (("en", "de"), "Helsinki-NLP/opus-mt-en-de");
      (("de", "en"), "Helsinki-NLP/opus-mt-de-en");
      (("en", "es"), "Helsinki-NLP/opus-mt-en-es");
      (("es", "en"), "Helsinki-NLP/opus-mt-es-en");
      (("en", "sv"), "Helsinki-NLP/opus-mt-en-sv");
      (("sv", "en"), "Helsinki-NLP/opus-mt-sv-en") ].

(** The state once the module is imported: the cache is empty and the only
    pipeline loaded is [explain_llm]. *)
Definition init_state : state :=
  State ∅ [("text2text-generation", "google/flan-t5-small")].

Definition PROMPT : string := "Please enter some text to translate.".

(** The task name and the message built by [get_translation_pipeline]. *)
Definition task_name (src_code tgt_code : string) : string :=
  "translation_" +:+ src_code +:+ "_to_" +:+ tgt_code.

Definition unsupported_msg (src_code tgt_code : string) : string :=
  "Language pair " +:+ src_code +:+ "->" +:+ tgt_code +:+ " not supported yet.".

(** ** The functions of [app.py] *)

Section App.

(** The loader of the transformers library, [pipeline(task, model=name)]. *)
Variable pipeline : string → string → Translator.

Definition call_pipeline (task model_name : string) : M Translator :=
  λ σ, (Ok (pipeline task model_name),
        State (_translation_pipelines σ) (pipeline_calls σ ++ [(task, model_name)])).

Definition get_translation_pipeline (src_code tgt_code : string) : M Translator :=
  let key := (src_code, tgt_code) in
  if negb (contains MODEL_MAP key) then
    raise (ValueError (unsupported_msg src_code tgt_code))
  else
    let! cache := get_pipelines in
    let! _ :=
      if negb (contains cache key) then
        let! model_name := lift (getitem pair_key MODEL_MAP key) in
        let task := task_name src_code tgt_code in
        let! t := call_pipeline task model_name in
        set_pipeline key t
      else ret tt in
    let! cache := get_pipelines in
    lift (getitem pair_key cache key).

Definition _apply_style_hints (text tone domain tgt_lang : string) : string :=
  let hints := [] in
  let hints :=
    if bool_decide (domain ≠ "General") then hints ++ [domain +:+ " context"] else hints in
  let hints :=
    if bool_decide (tone ≠ "Neutral") then hints ++ [tone +:+ " tone"] else hints in
  match hints with
  | _ :: _ =>
      let hint_str := join ", " hints in
      let styled := "[" +:+ hint_str +:+ " in " +:+ tgt_lang +:+ "] " +:+ text in
      styled
  | [] => text
  end.

Definition translate_text (text : option string)
    (src_lang tgt_lang tone domain : string) : M string :=
  let text := strip (or_empty text) in
  if negb (truthy text) then ret PROMPT
  else if bool_decide (src_lang = tgt_lang) then ret text
  else
    let! src_code := lift (getitem KStr LANG_CODES src_lang) in
    let! tgt_code := lift (getitem KStr LANG_CODES tgt_lang) in
    let! r := try_ValueError (get_translation_pipeline src_code tgt_code) in
    match r with
    | inr e => ret e
    | inl translator =>
        let styled_input := _apply_style_hints text tone domain tgt_lang in
        let translated := translator styled_input 512 in
        ret (strip translated)
    end.

Definition back_translate (text : option string)
    (src_lang tgt_lang tone domain : string) : M (string * string) :=
  let text := strip (or_empty text) in
  if negb (truthy text) then ret (PROMPT, "")
  else if bool_decide (src_lang = tgt_lang) then ret (text, text)
  else
    let! forward := translate_text (Some text) src_lang tgt_lang tone domain in
    let! backward := translate_text (Some forward) tgt_lang src_lang "Neutral" "General" in
    ret (forward, backward).

(** *** The process: calls made after the module is imported

    The cache is written at one place of the module only, inside
    [get_translation_pipeline]; the two functions below reach it through
    [translate_text], as [learning_mode_feedback] does. *)

Inductive call :=
  | GetPipeline (src_code tgt_code : string)
  | Translate (text : option string) (src_lang tgt_lang tone domain : string)
  | BackTranslate (text : option string) (src_lang tgt_lang tone domain : string).

(** The state a call leaves, whether it returns or raises. *)
Definition exec (c : call) (σ : state) : state :=
  match c with
  | GetPipeline src_code tgt_code =>
      (get_translation_pipeline src_code tgt_code σ).2
  | Translate text src_lang tgt_lang tone domain =>
      (translate_text text src_lang tgt_lang tone domain σ).2
  | BackTranslate text src_lang tgt_lang tone domain =>
      (back_translate text src_lang tgt_lang tone domain σ).2
  end.

Inductive reachable : state → Prop :=
  | reachable_init : reachable init_state
  | reachable_call c σ : reachable σ → reachable (exec c σ).

(** The state after the model of [key] has been loaded and stored. *)
Definition loaded (key : string * string) (model_name : string) (σ : state) : state :=
  State (<[key := pipeline (task_name key.1 key.2) model_name]> (_translation_pipelines σ))
        (pipeline_calls σ ++ [(task_name key.1 key.2, model_name)]).

(** How many times the model of the pair [key] has been loaded. *)
Definition load_count (σ : state) (key : string * string) : nat :=
  match MODEL_MAP !! key with
  | Some model_name =>
      length (filter (λ c, c = (task_name key.1 key.2, model_name)) (pipeline_calls σ))
  | None => 0%nat
  end.

(** The cache holds, for a pair, the pipeline of the model that
    [MODEL_MAP] gives it, loaded once; a pair that is not in the cache
    has no load so far. *)
Definition cache_inv (σ : state) : Prop :=
  ∀ key,
    match _translation_pipelines σ !! key with
    | Some t =>
        ∃ model_name,
          MODEL_MAP !! key = Some model_name ∧
          t = pipeline (task_name key.1 key.2) model_name ∧
          load_count σ key = 1%nat
    | None => load_count σ key = 0%nat
    end.

End App.

(** A loader for the examples: its pipelines wrap the text in the task name
    and leave whitespace around it. *)
Definition stub_pipeline : string → string → Translator :=
  λ task model_name text max_length, " <" +:+ task +:+ "|" +:+ text +:+ "> ".

(** ** The learning functions and the forms

    The rest of [app.py]: [explain_translation], [learning_mode_feedback],
    the handler [translate_and_explain] of the first form and the lists
    the dropdowns offer. *)

(** The text generation pipeline:
    [explain_llm(prompt, max_new_tokens=n, temperature=t)] gives [out], and
    the functions keep [out[0]["generated_text"]].  The temperature is the
    decimal written in the source. *)
Definition Generator : Type := string → Z → Q → string.

(** The line feed of the prompts. *)
Definition NL : string := utf8 [10%nat].

Definition EXPLAIN_GUIDANCE : string :=
  "Provide both the original text and the translation to get an explanation.".

Definition FEEDBACK_GUIDANCE : string :=
  "Please provide both the original text and your translation.".


Definition TONES : list string := ["Neutral"; "Formal"; "Informal"; "Simplified"].

Definition DOMAINS : list string := ["General"; "Business"; "Technical"; "Casual"].

Section Learning.

Variable pipeline : string → string → Translator.

(** The module global [explain_llm], loaded when the module is imported. *)
Variable explain_llm : Generator.

Definition explain_prompt (src_text translated_text src_lang tgt_lang : string) : string :=
  "You are a helpful language teacher. "
  +:+ "Explain this translation to a learner in simple terms. "
  +:+ "Mention important word choices, tone, and any interesting grammar." +:+ NL +:+ NL
  +:+ "Source language: " +:+ src_lang +:+ NL
  +:+ "Target language: " +:+ tgt_lang +:+ NL +:+ NL
  +:+ "Original text:" +:+ NL +:+ src_text +:+ NL +:+ NL
  +:+ "Translation:" +:+ NL +:+ translated_text +:+ NL +:+ NL
  +:+ "Explanation (in English, 1‚Äì2 short paragraphs):".

Definition explain_translation (src_text translated_text : option string)
    (src_lang tgt_lang : string) : string :=
  let src_text := strip (or_empty src_text) in
  let translated_text := strip (or_empty translated_text) in
  if negb (truthy src_text) || negb (truthy translated_text) then EXPLAIN_GUIDANCE
  else
    let prompt := explain_prompt src_text translated_text src_lang tgt_lang in
    let generated := explain_llm prompt 256 0.4%Q in
    strip generated.

Definition feedback_prompt
    (src_text user_translation model_translation src_lang tgt_lang : string) : string :=
  "You are a friendly language teacher. Compare the student's translation to the model translation. "
  +:+ "Explain what is good, what could be improved, and give 2‚Äì4 concrete suggestions. "
  +:+ "Be encouraging, not harsh." +:+ NL +:+ NL
  +:+ "Source language: " +:+ src_lang +:+ NL
  +:+ "Target language: " +:+ tgt_lang +:+ NL +:+ NL
  +:+ "Original text:" +:+ NL +:+ src_text +:+ NL +:+ NL
  +:+ "Student's translation:" +:+ NL +:+ user_translation +:+ NL +:+ NL
  +:+ "Model's translation:" +:+ NL +:+ model_translation +:+ NL +:+ NL
  +:+ "Feedback (in English, short and structured):".

(** The text [learning_mode_feedback] returns for a model translation and a
    feedback. *)
Definition feedback_report (model_translation feedback : string) : string :=
  "**Model translation:**" +:+ NL +:+ NL +:+ model_translation +:+ NL +:+ NL
  +:+ "---" +:+ NL +:+ NL +:+ "**Feedback:**" +:+ NL +:+ NL +:+ feedback.

Definition learning_mode_feedback (src_text user_translation : option string)
    (src_lang tgt_lang : string) : M string :=
  let src_text := strip (or_empty src_text) in
  let user_translation := strip (or_empty user_translation) in
  if negb (truthy src_text) || negb (truthy user_translation) then ret FEEDBACK_GUIDANCE
  else
    let! model_translation :=
      translate_text pipeline (Some src_text) src_lang tgt_lang "Neutral" "General" in
    let prompt :=
      feedback_prompt src_text user_translation model_translation src_lang tgt_lang in
    let generated := explain_llm prompt 320 0.4%Q in
    let feedback := strip generated in
    ret (feedback_report model_translation feedback).

Definition translate_and_explain (text : option string)
    (src tgt tone domain : string) (do_explain : bool) : M (string * string) :=
  let! translation := translate_text pipeline text src tgt tone domain in
  if negb do_explain then ret (translation, "")
  else
    let exp := explain_translation text (Some translation) src tgt in
    ret (translation, exp).

(** *** The three forms

    Each button runs one handler on what its form holds. *)
Inductive click :=
  | TranslateClick (text : option string) (src tgt tone domain : string) (do_explain : bool)
  | BackTranslateClick (text : option string) (src_lang tgt_lang tone domain : string)
  | LearningClick (src_text user_translation : option string) (src_lang tgt_lang : string).

(** The state a click leaves. *)
Definition handle (c : click) (σ : state) : state :=
  match c with
  | TranslateClick text src tgt tone domain do_explain =>
      (translate_and_explain text src tgt tone domain do_explain σ).2
  | BackTranslateClick text src_lang tgt_lang tone domain =>
      (back_translate pipeline text src_lang tgt_lang tone domain σ).2
  | LearningClick src_text user_translation src_lang tgt_lang =>
      (learning_mode_feedback src_text user_translation src_lang tgt_lang σ).2
  end.

Inductive served : state → Prop :=
  | served_init : served init_state
  | served_click c σ : served σ → served (handle c σ).

(** [σ'] keeps what [σ] has: every cached pipeline is still cached, and the
    log of loads has only grown at its end. *)
Definition extends (σ σ' : state) : Prop :=
  _translation_pipelines σ ⊆ _translation_pipelines σ' ∧
  pipeline_calls σ `prefix_of` pipeline_calls σ'.

End Learning.

(** A generator for the examples. *)
Definition stub_explain_llm : Generator :=
  λ prompt max_new_tokens temperature, "  Well done.  ".

(** ** The functions on examples *)

Example strip_spaces : strip ("  hi there " +:+ utf8 [9; 194; 160; 10]%nat) = "hi there".
Proof. reflexivity. Qed.

Example strip_inner : strip (utf8 [226; 128; 131]%nat +:+ "a b") = "a b".
Proof. reflexivity. Qed.

Example or_empty_None : or_empty None = "".
Proof. reflexivity. Qed.

Example join_three : join ", " ["a"; "b"; "c"] = "a, b, c".
Proof. reflexivity. Qed.

Example translate_text_en_fr :
  (translate_text stub_pipeline (Some " hi ") "English" "French" "Formal" "Business"
     init_state).1
  = Ok "<translation_en_to_fr|[Business context, Formal tone in French] hi>".
Proof. reflexivity. Qed.

Example translate_text_en_fr_loads :
  pipeline_calls
    (translate_text stub_pipeline (Some " hi ") "English" "French" "Formal" "Business"
       init_state).2
  = [("text2text-generation", "google/flan-t5-small");
     ("translation_en_to_fr", "Helsinki-NLP/opus-mt-en-fr")].
Proof. reflexivity. Qed.

Example translate_text_None :
  (translate_text stub_pipeline None "English" "French" "Neutral" "General" init_state).1
  = Ok "Please enter some text to translate.".
Proof. reflexivity. Qed.

Example back_translate_en_fr :
  (back_translate stub_pipeline (Some "hi") "English" "French" "Formal" "General"
     init_state).1
  = Ok ("<translation_en_to_fr|[Formal tone in French] hi>",
        "<translation_fr_to_en|<translation_en_to_fr|[Formal tone in French] hi>>").
Proof. reflexivity. Qed.

Example back_translate_same_language :
  (back_translate stub_pipeline (Some " hi ") "German" "German" "Formal" "Business"
     init_state).1
  = Ok ("hi", "hi").
Proof. reflexivity. Qed.

(** ** Strings *)

Lemma truthy_false s : truthy s = false ↔ s = "".
Proof. destruct s; simpl; split; congruence. Qed.

Lemma truthy_true s : truthy s = true ↔ s ≠ "".
Proof. destruct s; simpl; split; congruence. Qed.

Lemma or_empty_Some s : or_empty (Some s) = s.
Proof. by destruct s. Qed.

Lemma length_append s1 s2 :
  String.length (s1 +:+ s2) = (String.length s1 + String.length s2)%nat.
Proof. induction s1 as [|a s1 IH]; simpl; [done|]. by rewrite IH. Qed.

(** Every entry of the table is a character: it is not empty, and
    [drop_one] removes exactly it. *)
Lemma WHITESPACE_length w : w ∈ WHITESPACE → (0 < String.length w)%nat.
Proof.
  intros Hw. apply list_elem_of_In in Hw. simpl in Hw.
  repeat (destruct Hw as [<-|Hw]; [simpl; lia|]). done.
Qed.

Lemma drop_one_space w s : w ∈ WHITESPACE → drop_one WHITESPACE (w +:+ s) = Some s.
Proof.
  intros Hw. apply list_elem_of_In in Hw. simpl in Hw.
  repeat (destruct Hw as [<-|Hw]; [reflexivity|]). done.
Qed.

Lemma drop_leading_blank s :
  blank s → ∀ n, (String.length s ≤ n)%nat → drop_leading WHITESPACE n s = "".
Proof.
  induction 1 as [|w s Hw Hs IH]; intros n Hn.
  - by destruct n.
  - rewrite length_append in Hn. apply WHITESPACE_length in Hw as Hlen.
    destruct n as [|n]; [lia|]. cbn [drop_leading].
    rewrite drop_one_space by done. apply IH. lia.
Qed.

Lemma lstrip_blank s : blank s → lstrip s = "".
Proof. intros Hs. by apply drop_leading_blank. Qed.

Lemma strip_blank s : blank s → strip s = "".
Proof. intros Hs. unfold strip. by rewrite lstrip_blank. Qed.

Lemma blank_spaces : blank "   ".
Proof.
  change "   " with (" " +:+ " " +:+ " " +:+ "").
  assert (" " ∈ WHITESPACE) by (apply list_elem_of_In; vm_compute; tauto).
  repeat constructor; done.
Qed.

(** ** The configuration tables *)

(** No two pairs of [MODEL_MAP] share a model. *)
Lemma MODEL_MAP_models_distinct :
  map_Forall (λ k m, map_Forall (λ k' m', m = m' → k = k') MODEL_MAP) MODEL_MAP.
Proof. eapply bool_decide_unpack. vm_compute. exact I. Qed.

Lemma MODEL_MAP_inj k k' m :
  MODEL_MAP !! k = Some m → MODEL_MAP !! k' = Some m → k = k'.
Proof.
  intros Hk Hk'.
  exact (MODEL_MAP_models_distinct k m Hk k' m Hk' eq_refl).
Qed.

Lemma contains_true `{Countable K} {V} (d : gmap K V) k v :
  d !! k = Some v → contains d k = true.
Proof. intros Hk. apply bool_decide_eq_true. by exists v. Qed.

Lemma contains_false `{Countable K} {V} (d : gmap K V) k :
  d !! k = None → contains d k = false.
Proof. intros Hk. apply bool_decide_eq_false. rewrite Hk. by intros [? ?]. Qed.

(** ** [get_translation_pipeline] and [translate_text], case by case *)

Section Cases.

Variable pipeline : string → string → Translator.

Lemma get_translation_pipeline_unsupported src_code tgt_code σ :
  MODEL_MAP !! (src_code, tgt_code) = None →
  get_translation_pipeline pipeline src_code tgt_code σ
  = (Raise (ValueError (unsupported_msg src_code tgt_code)), σ).
Proof.
  intros Hk. unfold get_translation_pipeline.
  by rewrite (contains_false _ _ Hk).
Qed.

Lemma get_translation_pipeline_hit src_code tgt_code model_name t σ :
  MODEL_MAP !! (src_code, tgt_code) = Some model_name →
  _translation_pipelines σ !! (src_code, tgt_code) = Some t →
  get_translation_pipeline pipeline src_code tgt_code σ = (Ok t, σ).
Proof.
  intros Hk Hc. unfold get_translation_pipeline.
  rewrite (contains_true _ _ _ Hk). simpl.
  unfold bind, get_pipelines, lift, getitem, ret.
  rewrite (contains_true _ _ _ Hc). simpl. by rewrite Hc.
Qed.

Lemma get_translation_pipeline_miss src_code tgt_code model_name σ :
  MODEL_MAP !! (src_code, tgt_code) = Some model_name →
  _translation_pipelines σ !! (src_code, tgt_code) = None →
  get_translation_pipeline pipeline src_code tgt_code σ
  = (Ok (pipeline (task_name src_code tgt_code) model_name),
     loaded pipeline (src_code, tgt_code) model_name σ).
Proof.
  intros Hk Hc. unfold get_translation_pipeline.
  rewrite (contains_true _ _ _ Hk). simpl.
  unfold bind, get_pipelines, lift, getitem, ret, call_pipeline, set_pipeline.
  rewrite (contains_false _ _ Hc). simpl. rewrite Hk. simpl.
  by rewrite lookup_insert_eq.
Qed.

(** Empty text after trimming: the prompt, whatever the other arguments. *)
Lemma translate_text_empty text src_lang tgt_lang tone domain σ :
  strip (or_empty text) = "" →
  translate_text pipeline text src_lang tgt_lang tone domain σ = (Ok PROMPT, σ).
Proof. intros He. unfold translate_text. by rewrite He. Qed.

Lemma translate_text_same text lang tone domain σ :
  strip (or_empty text) ≠ "" →
  translate_text pipeline text lang lang tone domain σ
  = (Ok (strip (or_empty text)), σ).
Proof.
  intros Hne%truthy_true. unfold translate_text. rewrite Hne. simpl.
  by rewrite bool_decide_eq_true_2.
Qed.

Lemma translate_text_same_str (text lang tone domain : string) σ :
  strip text ≠ "" →
  translate_text pipeline (Some text) lang lang tone domain σ = (Ok (strip text), σ).
Proof.
  intros Hne.
  pose proof (translate_text_same (Some text) lang tone domain σ) as Hsame.
  rewrite or_empty_Some in Hsame. by apply Hsame.
Qed.

(** Past the two guards, the call is the two registry lookups, the
    pipeline fetch and the model call. *)
Lemma translate_text_distinct text src_lang tgt_lang tone domain σ :
  strip (or_empty text) ≠ "" →
  src_lang ≠ tgt_lang →
  translate_text pipeline text src_lang tgt_lang tone domain σ
  = match LANG_CODES !! src_lang, LANG_CODES !! tgt_lang with
    | None, _ => (Raise (KeyError (KStr src_lang)), σ)
    | Some _, None => (Raise (KeyError (KStr tgt_lang)), σ)
    | Some src_code, Some tgt_code =>
        match get_translation_pipeline pipeline src_code tgt_code σ with
        | (Ok translator, σ') =>
            (Ok (strip (translator
                   (_apply_style_hints (strip (or_empty text)) tone domain tgt_lang) 512)),
             σ')
        | (Raise (ValueError msg), σ') => (Ok msg, σ')
        | (Raise e, σ') => (Raise e, σ')
        end
    end.
Proof.
  intros Hne%truthy_true Hd. unfold translate_text. rewrite Hne. simpl.
  rewrite bool_decide_eq_false_2 by done.
  unfold bind, lift, getitem, try_ValueError, ret.
  destruct (LANG_CODES !! src_lang) as [src_code|]; [|done].
  destruct (LANG_CODES !! tgt_lang) as [tgt_code|]; [|done].
  destruct (get_translation_pipeline pipeline src_code tgt_code σ) as [[t|[k|msg]] σ'];
    done.
Qed.

End Cases.

(** ** The cache invariant *)

Lemma MODEL_MAP_not_explain_llm :
  map_Forall (λ _ m, m ≠ "google/flan-t5-small") MODEL_MAP.
Proof. eapply bool_decide_unpack. vm_compute. exact I. Qed.

Section Invariant.

Variable pipeline : string → string → Translator.

Lemma load_count_loaded_same key model_name σ :
  MODEL_MAP !! key = Some model_name →
  load_count (loaded pipeline key model_name σ) key = S (load_count σ key).
Proof.
  intros Hk. unfold load_count, loaded. rewrite Hk. simpl.
  rewrite filter_app, length_app, filter_cons_True by done. simpl. lia.
Qed.

Lemma load_count_loaded_other key key' model_name σ :
  MODEL_MAP !! key = Some model_name →
  key' ≠ key →
  load_count (loaded pipeline key model_name σ) key' = load_count σ key'.
Proof.
  intros Hk Hne. unfold load_count, loaded.
  destruct (MODEL_MAP !! key') as [m'|] eqn:Hk'; [|done]. simpl.
  rewrite filter_app, length_app, filter_cons_False; [simpl; lia|].
  intros Heq%(f_equal snd). simpl in Heq. subst m'.
  apply Hne. by eapply MODEL_MAP_inj.
Qed.

Lemma cache_inv_init : cache_inv pipeline init_state.
Proof.
  intros key. simpl. rewrite lookup_empty. unfold load_count.
  destruct (MODEL_MAP !! key) as [m|] eqn:Hk; [|done].
  change (pipeline_calls init_state)
    with [("text2text-generation", "google/flan-t5-small")].
  rewrite filter_cons_False; [done|].
  intros Heq%(f_equal snd). simpl in Heq.
  by apply (MODEL_MAP_not_explain_llm key m Hk).
Qed.

Lemma cache_inv_loaded key model_name σ :
  MODEL_MAP !! key = Some model_name →
  _translation_pipelines σ !! key = None →
  cache_inv pipeline σ →
  cache_inv pipeline (loaded pipeline key model_name σ).
Proof.
  intros Hk Hc Hinv key'. specialize (Hinv key') as Hinv'.
  destruct (decide (key' = key)) as [->|Hne].
  - rewrite Hc in Hinv'.
    change (_translation_pipelines (loaded pipeline key model_name σ))
      with (<[key := pipeline (task_name key.1 key.2) model_name]> (_translation_pipelines σ)).
    rewrite lookup_insert_eq. exists model_name.
    rewrite load_count_loaded_same, Hinv' by done. done.
  - change (_translation_pipelines (loaded pipeline key model_name σ))
      with (<[key := pipeline (task_name key.1 key.2) model_name]> (_translation_pipelines σ)).
    rewrite lookup_insert_ne by done.
    rewrite load_count_loaded_other by done. done.
Qed.

(** The three outcomes of [get_translation_pipeline]. *)
Lemma get_translation_pipeline_cases src_code tgt_code σ :
  cache_inv pipeline σ →
  (MODEL_MAP !! (src_code, tgt_code) = None ∧
   get_translation_pipeline pipeline src_code tgt_code σ
   = (Raise (ValueError (unsupported_msg src_code tgt_code)), σ))
  ∨ (∃ model_name,
      MODEL_MAP !! (src_code, tgt_code) = Some model_name ∧
      _translation_pipelines σ !! (src_code, tgt_code)
      = Some (pipeline (task_name src_code tgt_code) model_name) ∧
      get_translation_pipeline pipeline src_code tgt_code σ
      = (Ok (pipeline (task_name src_code tgt_code) model_name), σ))
  ∨ (∃ model_name,
      MODEL_MAP !! (src_code, tgt_code) = Some model_name ∧
      _translation_pipelines σ !! (src_code, tgt_code) = None ∧
      get_translation_pipeline pipeline src_code tgt_code σ
      = (Ok (pipeline (task_name src_code tgt_code) model_name),
         loaded pipeline (src_code, tgt_code) model_name σ)).
Proof.
  intros Hinv. specialize (Hinv (src_code, tgt_code)).
  destruct (MODEL_MAP !! (src_code, tgt_code)) as [m|] eqn:Hk.
  - right. destruct (_translation_pipelines σ !! (src_code, tgt_code)) as [t|] eqn:Hc.
    + left. destruct Hinv as (m' & [= <-] & -> & _). exists m.
      split_and!; [done..|]. by eapply get_translation_pipeline_hit.
    + right. exists m. split_and!; [done..|]. by apply get_translation_pipeline_miss.
  - left. split; [done|]. by apply get_translation_pipeline_unsupported.
Qed.

Lemma cache_inv_get_translation_pipeline src_code tgt_code σ :
  cache_inv pipeline σ →
  cache_inv pipeline (get_translation_pipeline pipeline src_code tgt_code σ).2.
Proof.
  intros Hinv.
  destruct (get_translation_pipeline_cases src_code tgt_code σ Hinv)
    as [[_ ->]|[(m & _ & _ & ->)|(m & Hk & Hc & ->)]]; simpl; [done..|].
  by apply cache_inv_loaded.
Qed.

(** The value [get_translation_pipeline] gives does not depend on what
    has been cached so far. *)
Lemma get_translation_pipeline_value src_code tgt_code σ :
  cache_inv pipeline σ →
  (get_translation_pipeline pipeline src_code tgt_code σ).1
  = match MODEL_MAP !! (src_code, tgt_code) with
    | Some model_name => Ok (pipeline (task_name src_code tgt_code) model_name)
    | None => Raise (ValueError (unsupported_msg src_code tgt_code))
    end.
Proof.
  intros Hinv.
  destruct (get_translation_pipeline_cases src_code tgt_code σ Hinv)
    as [[-> ->]|[(m & -> & _ & ->)|(m & -> & _ & ->)]]; done.
Qed.

(** What [get_translation_pipeline] preserves, the other calls preserve. *)
Section Preserved.

Variable P : state → Prop.
Hypothesis P_get : ∀ src_code tgt_code σ,
  P σ → P (get_translation_pipeline pipeline src_code tgt_code σ).2.

Lemma translate_text_preserves text src_lang tgt_lang tone domain σ :
  P σ → P (translate_text pipeline text src_lang tgt_lang tone domain σ).2.
Proof.
  intros HP.
  destruct (decide (strip (or_empty text) = "")) as [He|Hne].
  { by rewrite translate_text_empty. }
  destruct (decide (src_lang = tgt_lang)) as [->|Hd].
  { by rewrite translate_text_same. }
  rewrite translate_text_distinct by done.
  destruct (LANG_CODES !! src_lang) as [src_code|]; [|done].
  destruct (LANG_CODES !! tgt_lang) as [tgt_code|]; [|done].
  specialize (P_get src_code tgt_code σ HP).
  destruct (get_translation_pipeline pipeline src_code tgt_code σ) as [[t|[k|msg]] σ'];
    done.
Qed.

Lemma back_translate_preserves text src_lang tgt_lang tone domain σ :
  P σ → P (back_translate pipeline text src_lang tgt_lang tone domain σ).2.
Proof.
  intros HP. unfold back_translate.
  destruct (truthy (strip (or_empty text))); simpl; [|done].
  case_bool_decide; [done|]. unfold bind.
  pose proof (translate_text_preserves (Some (strip (or_empty text)))
                src_lang tgt_lang tone domain σ HP) as H1.
  destruct (translate_text pipeline (Some (strip (or_empty text)))
              src_lang tgt_lang tone domain σ) as [[forward|e] σ1]; [|done].
  pose proof (translate_text_preserves (Some forward)
                tgt_lang src_lang "Neutral" "General" σ1 H1) as H2.
  destruct (translate_text pipeline (Some forward)
              tgt_lang src_lang "Neutral" "General" σ1) as [[backward|e] σ2]; done.
Qed.

Lemma exec_preserves c σ : P σ → P (exec pipeline c σ).
Proof.
  destruct c; simpl; auto using translate_text_preserves, back_translate_preserves.
Qed.

End Preserved.

Lemma reachable_cache_inv σ : reachable pipeline σ → cache_inv pipeline σ.
Proof.
  induction 1 as [|c σ _ IH]; [apply cache_inv_init|].
  apply exec_preserves; [|done].
  intros. by apply cache_inv_get_translation_pipeline.
Qed.

End Invariant.

(** ** Results that do not depend on the cache *)

Section Values.

Variable pipeline : string → string → Translator.

(** With registered names a call of [translate_text] returns. *)
Lemma translate_text_returns text src_lang tgt_lang tone domain σ :
  cache_inv pipeline σ →
  is_Some (LANG_CODES !! src_lang) →
  is_Some (LANG_CODES !! tgt_lang) →
  ∃ out σ', translate_text pipeline text src_lang tgt_lang tone domain σ = (Ok out, σ').
Proof.
  intros Hinv [src_code Hs] [tgt_code Ht].
  destruct (decide (strip (or_empty text) = "")) as [He|Hne].
  { rewrite translate_text_empty by done. eauto. }
  destruct (decide (src_lang = tgt_lang)) as [->|Hd].
  { rewrite translate_text_same by done. eauto. }
  rewrite translate_text_distinct, Hs, Ht by done.
  destruct (get_translation_pipeline_cases pipeline src_code tgt_code σ Hinv)
    as [[_ ->]|[(m & _ & _ & ->)|(m & _ & _ & ->)]]; eauto.
Qed.

(** Two states that satisfy the invariant give the same result. *)
Lemma translate_text_value text src_lang tgt_lang tone domain σ1 σ2 :
  cache_inv pipeline σ1 →
  cache_inv pipeline σ2 →
  (translate_text pipeline text src_lang tgt_lang tone domain σ1).1
  = (translate_text pipeline text src_lang tgt_lang tone domain σ2).1.
Proof.
  intros Hinv1 Hinv2.
  destruct (decide (strip (or_empty text) = "")) as [He|Hne].
  { by rewrite !translate_text_empty. }
  destruct (decide (src_lang = tgt_lang)) as [->|Hd].
  { by rewrite !translate_text_same. }
  rewrite !translate_text_distinct by done.
  destruct (LANG_CODES !! src_lang) as [src_code|]; [|done].
  destruct (LANG_CODES !! tgt_lang) as [tgt_code|]; [|done].
  pose proof (get_translation_pipeline_value pipeline src_code tgt_code σ1 Hinv1) as H1.
  pose proof (get_translation_pipeline_value pipeline src_code tgt_code σ2 Hinv2) as H2.
  destruct (get_translation_pipeline pipeline src_code tgt_code σ1) as [r1 σ1'].
  destruct (get_translation_pipeline pipeline src_code tgt_code σ2) as [r2 σ2'].
  simpl in H1, H2. subst r1 r2.
  by destruct (MODEL_MAP !! (src_code, tgt_code)).
Qed.

End Values.

(** ** The claims *)

(** C1, as stated: [translate_text(text, L, L, tone, domain)] returns the
    text exactly unchanged for every text.  The text is trimmed first, so
    the claim fails for a text with whitespace around it. *)
Lemma translate_text_identity_untrimmed_fails :
  ¬ (∀ pipeline (text L tone domain : string) σ,
       (translate_text pipeline (Some text) L L tone domain σ).1 = Ok text).
Proof.
  intros H.
  specialize (H stub_pipeline " hi " "English" "Neutral" "General" init_state).
  vm_compute in H. discriminate.
Qed.

(** C1, amended: for every text that is not empty once trimmed and every
    language name L, with any tone and domain,
    [translate_text(text, L, L, tone, domain)] returns the trimmed text and
    leaves the state as it is: nothing is loaded and no model is called. *)
Theorem translate_text_identity pipeline (text L tone domain : string) σ :
  strip text ≠ "" →
  translate_text pipeline (Some text) L L tone domain σ = (Ok (strip text), σ).
Proof.
  intros Hne. by apply translate_text_same_str.
Qed.

Lemma translate_text_identity_witness :
  strip " hi " ≠ "" ∧
  translate_text stub_pipeline (Some " hi ") "French" "French" "Formal" "Business" init_state
  = (Ok (strip " hi "), init_state).
Proof.
  assert (strip " hi " ≠ "") as Hne by (vm_compute; discriminate).
  split; [exact Hne|].
  exact (translate_text_identity stub_pipeline " hi " "French" "Formal" "Business"
           init_state Hne).
Defined.

(** C2, as stated: a call with a language name that is not in the registry
    returns a message string and raises nothing.  The lookup
    [LANG_CODES[src_lang]] is outside the [try] and raises [KeyError]. *)
Lemma translate_text_unknown_language_raises :
  ¬ (∀ pipeline (text src_lang tgt_lang tone domain : string) σ,
       LANG_CODES !! src_lang = None ∨ LANG_CODES !! tgt_lang = None →
       ∃ msg, (translate_text pipeline (Some text) src_lang tgt_lang tone domain σ).1
              = Ok msg).
Proof.
  intros H.
  destruct (H stub_pipeline "hi" "Klingon" "French" "Neutral" "General" init_state)
    as [msg Hmsg].
  - left. reflexivity.
  - vm_compute in Hmsg. discriminate.
Qed.

(** C2, amended: for a call of [translate_text] with a source or target
    name that is not in the registry: when the trimmed text is empty it
    returns the prompt message; when the two names are equal it returns the
    trimmed text; otherwise it raises [KeyError] for the unregistered name
    (the source name first), which reaches the caller.  The state is
    unchanged in the three cases. *)
Theorem translate_text_unknown_language pipeline (text src_lang tgt_lang tone domain : string) σ :
  LANG_CODES !! src_lang = None ∨ LANG_CODES !! tgt_lang = None →
  let r := translate_text pipeline (Some text) src_lang tgt_lang tone domain σ in
  (strip text = "" → r = (Ok PROMPT, σ)) ∧
  (strip text ≠ "" → src_lang = tgt_lang → r = (Ok (strip text), σ)) ∧
  (strip text ≠ "" → src_lang ≠ tgt_lang →
   r = (Raise (KeyError (KStr match LANG_CODES !! src_lang with
                               | Some _ => tgt_lang
                               | None => src_lang
                               end)), σ)).
Proof.
  intros Hunk r. subst r. split_and!.
  - intros He. apply translate_text_empty. by rewrite or_empty_Some.
  - intros Hne ->. by apply translate_text_same_str.
  - intros Hne Hd. rewrite translate_text_distinct by (by rewrite ?or_empty_Some).
    destruct (LANG_CODES !! src_lang) as [src_code|]; [|done].
    destruct Hunk as [?|Ht]; [done|]. by rewrite Ht.
Qed.

Lemma translate_text_unknown_language_witness :
  (LANG_CODES !! "Klingon" = None ∨ LANG_CODES !! "French" = None) ∧
  translate_text stub_pipeline (Some "hi") "Klingon" "French" "Neutral" "General" init_state
  = (Raise (KeyError (KStr "Klingon")), init_state).
Proof.
  assert (LANG_CODES !! "Klingon" = None ∨ LANG_CODES !! "French" = None) as Hunk
    by (left; reflexivity).
  split; [exact Hunk|].
  refine (proj2 (proj2 (translate_text_unknown_language stub_pipeline
            "hi" "Klingon" "French" "Neutral" "General" init_state Hunk)) _ _).
  - vm_compute. discriminate.
  - discriminate.
Defined.

(** C3: for every supported pair, two calls of [get_translation_pipeline]
    with that pair load its model once: after the two calls the model has
    been loaded exactly once since the module was imported, the second call
    loads nothing, and from a cache without the pair the two calls add one
    call of [pipeline] to the log.  In every state the process reaches, each
    pair's model has been loaded at most once. *)
Theorem cache_idempotence pipeline :
  (∀ σ, reachable pipeline σ → ∀ key, (load_count σ key ≤ 1)%nat) ∧
  (∀ src_code tgt_code model_name σ,
     reachable pipeline σ →
     MODEL_MAP !! (src_code, tgt_code) = Some model_name →
     let first := get_translation_pipeline pipeline src_code tgt_code σ in
     let second := get_translation_pipeline pipeline src_code tgt_code first.2 in
     first.1 = Ok (pipeline (task_name src_code tgt_code) model_name) ∧
     second.1 = first.1 ∧
     second.2 = first.2 ∧
     load_count second.2 (src_code, tgt_code) = 1%nat ∧
     (_translation_pipelines σ !! (src_code, tgt_code) = None →
      pipeline_calls second.2
      = pipeline_calls σ ++ [(task_name src_code tgt_code, model_name)])).
Proof.
  split.
  - intros σ Hσ%reachable_cache_inv key. specialize (Hσ key).
    destruct (_translation_pipelines σ !! key); [|lia].
    destruct Hσ as (_ & _ & _ & ->). lia.
  - intros src_code tgt_code model_name σ Hσ%reachable_cache_inv Hk first second.
    assert (cache_inv pipeline first.2) as Hinv1
      by by apply cache_inv_get_translation_pipeline.
    assert (first.1 = Ok (pipeline (task_name src_code tgt_code) model_name) ∧
            _translation_pipelines first.2 !! (src_code, tgt_code)
            = Some (pipeline (task_name src_code tgt_code) model_name) ∧
            (_translation_pipelines σ !! (src_code, tgt_code) = None →
             pipeline_calls first.2
             = pipeline_calls σ ++ [(task_name src_code tgt_code, model_name)]))
      as (Hv1 & Hc1 & Hlog).
    { subst first second.
      destruct (get_translation_pipeline_cases pipeline src_code tgt_code σ Hσ)
        as [[Hk' _]|[(m & Hk' & Hc & ->)|(m & Hk' & Hc & ->)]].
      - congruence.
      - assert (m = model_name) as -> by congruence. simpl.
        split_and!; [done..|]. congruence.
      - assert (m = model_name) as -> by congruence. simpl.
        split_and!; [done| |done]. apply lookup_insert_eq. }
    assert (second = (first.1, first.2)) as Hsecond.
    { subst second. rewrite Hv1.
      by eapply get_translation_pipeline_hit. }
    rewrite Hsecond. simpl. split_and!; [done..| |done].
    specialize (Hinv1 (src_code, tgt_code)). rewrite Hc1 in Hinv1.
    by destruct Hinv1 as (_ & _ & _ & ->).
Qed.

Lemma cache_idempotence_witness :
  reachable stub_pipeline init_state ∧
  MODEL_MAP !! ("en", "fr") = Some "Helsinki-NLP/opus-mt-en-fr" ∧
  let first := get_translation_pipeline stub_pipeline "en" "fr" init_state in
  let second := get_translation_pipeline stub_pipeline "en" "fr" first.2 in
  load_count second.2 ("en", "fr") = 1%nat ∧
  pipeline_calls second.2
  = pipeline_calls init_state ++ [(task_name "en" "fr", "Helsinki-NLP/opus-mt-en-fr")].
Proof.
  assert (MODEL_MAP !! ("en", "fr") = Some "Helsinki-NLP/opus-mt-en-fr") as Hk
    by reflexivity.
  split; [apply reachable_init|]. split; [exact Hk|].
  destruct (proj2 (cache_idempotence stub_pipeline) "en" "fr" _ init_state
              (reachable_init _) Hk) as (_ & _ & _ & Hcount & Hlog).
  split; [exact Hcount|]. apply Hlog. reflexivity.
Defined.

(** C4: for every pair that is not in [MODEL_MAP],
    [get_translation_pipeline] raises the [ValueError] of the unsupported
    pair, and [translate_text] returns the message of that error as its
    result; no call of [translate_text] raises a [ValueError]. *)
Theorem unsupported_pair_handling pipeline :
  (∀ src_code tgt_code σ,
     MODEL_MAP !! (src_code, tgt_code) = None →
     (get_translation_pipeline pipeline src_code tgt_code σ).1
     = Raise (ValueError (unsupported_msg src_code tgt_code))) ∧
  (∀ text src_lang tgt_lang tone domain src_code tgt_code σ,
     strip (or_empty text) ≠ "" →
     src_lang ≠ tgt_lang →
     LANG_CODES !! src_lang = Some src_code →
     LANG_CODES !! tgt_lang = Some tgt_code →
     MODEL_MAP !! (src_code, tgt_code) = None →
     translate_text pipeline text src_lang tgt_lang tone domain σ
     = (Ok (unsupported_msg src_code tgt_code), σ)) ∧
  (∀ text src_lang tgt_lang tone domain σ msg,
     (translate_text pipeline text src_lang tgt_lang tone domain σ).1
     ≠ Raise (ValueError msg)).
Proof.
  split_and!.
  - intros src_code tgt_code σ Hk.
    by rewrite get_translation_pipeline_unsupported.
  - intros text src_lang tgt_lang tone domain src_code tgt_code σ Hne Hd Hs Ht Hk.
    rewrite translate_text_distinct, Hs, Ht by done.
    by rewrite get_translation_pipeline_unsupported.
  - intros text src_lang tgt_lang tone domain σ msg.
    destruct (decide (strip (or_empty text) = "")) as [He|Hne].
    { by rewrite translate_text_empty. }
    destruct (decide (src_lang = tgt_lang)) as [->|Hd].
    { by rewrite translate_text_same. }
    rewrite translate_text_distinct by done.
    destruct (LANG_CODES !! src_lang) as [src_code|]; [|done].
    destruct (LANG_CODES !! tgt_lang) as [tgt_code|]; [|done].
    destruct (get_translation_pipeline pipeline src_code tgt_code σ) as [[t|[k|m]] σ'];
      done.
Qed.

Lemma unsupported_pair_handling_witness :
  MODEL_MAP !! ("fr", "de") = None ∧
  (get_translation_pipeline stub_pipeline "fr" "de" init_state).1
  = Raise (ValueError "Language pair fr->de not supported yet.") ∧
  translate_text stub_pipeline (Some "Bonjour") "French" "German" "Formal" "Business" init_state
  = (Ok "Language pair fr->de not supported yet.", init_state).
Proof.
  assert (MODEL_MAP !! ("fr", "de") = None) as Hk by reflexivity.
  destruct (unsupported_pair_handling stub_pipeline) as (Hget & Htr & _).
  split; [exact Hk|]. split.
  - exact (Hget "fr" "de" init_state Hk).
  - apply (Htr (Some "Bonjour") "French" "German" "Formal" "Business" "fr" "de" init_state).
    + vm_compute. discriminate.
    + discriminate.
    + reflexivity.
    + reflexivity.
    + exact Hk.
Defined.

(** C5, as stated: for every non-empty text and every two distinct language
    names, the backward component of [back_translate] is
    [translate_text(forward, tgt, src, "Neutral", "General")].  A text of
    whitespace only is not empty, and [back_translate] answers it with the
    prompt and an empty backward component without translating anything. *)
Lemma back_translate_asymmetry_blank_fails :
  ¬ (∀ pipeline (text src_lang tgt_lang tone domain : string) σ,
       text ≠ "" →
       src_lang ≠ tgt_lang →
       ∃ forward backward σ',
         back_translate pipeline (Some text) src_lang tgt_lang tone domain σ
         = (Ok (forward, backward), σ') ∧
         (translate_text pipeline (Some forward) tgt_lang src_lang "Neutral" "General" σ').1
         = Ok backward).
Proof.
  intros H.
  destruct (H stub_pipeline " " "French" "German" "Formal" "Business" init_state)
    as (forward & backward & σ' & Hback & Htr); [discriminate..|].
  vm_compute in Hback. injection Hback as <- <- <-.
  vm_compute in Htr. discriminate.
Qed.

(** C5, amended: for every text that is not empty once trimmed and every two
    distinct language names of the registry, with any tone and domain,
    [back_translate] returns a pair whose backward component is the result
    of [translate_text(forward, tgt, src, "Neutral", "General")], in whatever
    state of the process that call is made. *)
Theorem back_translate_asymmetry pipeline (text src_lang tgt_lang tone domain : string) σ :
  reachable pipeline σ →
  strip text ≠ "" →
  src_lang ≠ tgt_lang →
  is_Some (LANG_CODES !! src_lang) →
  is_Some (LANG_CODES !! tgt_lang) →
  ∃ forward backward σ',
    back_translate pipeline (Some text) src_lang tgt_lang tone domain σ
    = (Ok (forward, backward), σ') ∧
    ∀ σ2, reachable pipeline σ2 →
      (translate_text pipeline (Some forward) tgt_lang src_lang "Neutral" "General" σ2).1
      = Ok backward.
Proof.
  intros Hσ%reachable_cache_inv Hne Hd Hs Ht.
  unfold back_translate. rewrite or_empty_Some.
  apply truthy_true in Hne as Htruthy. rewrite Htruthy. simpl.
  rewrite bool_decide_eq_false_2 by done. unfold bind, ret.
  destruct (translate_text_returns pipeline (Some (strip text))
              src_lang tgt_lang tone domain σ Hσ Hs Ht) as (forward & σ1 & Hfwd).
  assert (cache_inv pipeline σ1) as Hσ1.
  { change σ1 with (Ok forward, σ1).2. rewrite <- Hfwd.
    apply translate_text_preserves; [|done].
    intros. by apply cache_inv_get_translation_pipeline. }
  destruct (translate_text_returns pipeline (Some forward)
              tgt_lang src_lang "Neutral" "General" σ1 Hσ1 Ht Hs) as (backward & σ2 & Hbwd).
  rewrite Hfwd, Hbwd. exists forward, backward, σ2. split; [done|].
  intros σ2' Hσ2'%reachable_cache_inv.
  rewrite (translate_text_value pipeline _ _ _ _ _ σ2' σ1) by done.
  by rewrite Hbwd.
Qed.

Lemma back_translate_asymmetry_witness :
  reachable stub_pipeline init_state ∧
  strip "Good morning" ≠ "" ∧
  "English" ≠ "French" ∧
  is_Some (LANG_CODES !! "English") ∧
  is_Some (LANG_CODES !! "French") ∧
  ∃ forward backward σ',
    back_translate stub_pipeline (Some "Good morning") "English" "French"
      "Formal" "Business" init_state
    = (Ok (forward, backward), σ') ∧
    ∀ σ2, reachable stub_pipeline σ2 →
      (translate_text stub_pipeline (Some forward) "French" "English"
         "Neutral" "General" σ2).1
      = Ok backward.
Proof.
  assert (strip "Good morning" ≠ "") as Hne by (vm_compute; discriminate).
  assert ("English" ≠ "French") as Hd by discriminate.
  assert (is_Some (LANG_CODES !! "English")) as Hs by (eexists; reflexivity).
  assert (is_Some (LANG_CODES !! "French")) as Ht by (eexists; reflexivity).
  split_and!; [apply reachable_init|exact Hne|exact Hd|exact Hs|exact Ht|].
  exact (back_translate_asymmetry stub_pipeline "Good morning" "English" "French"
           "Formal" "Business" init_state (reachable_init _) Hne Hd Hs Ht).
Defined.

(** C6: with any languages, tone and domain, [translate_text] returns the
    prompt message for the empty string and for every text made of
    whitespace only, such as three spaces; the state is unchanged. *)
Theorem translate_text_empty_input pipeline (src_lang tgt_lang tone domain : string) σ :
  translate_text pipeline (Some "") src_lang tgt_lang tone domain σ = (Ok PROMPT, σ) ∧
  translate_text pipeline (Some "   ") src_lang tgt_lang tone domain σ = (Ok PROMPT, σ) ∧
  ∀ text, blank text →
    translate_text pipeline (Some text) src_lang tgt_lang tone domain σ = (Ok PROMPT, σ).
Proof.
  assert (∀ text, blank text →
    translate_text pipeline (Some text) src_lang tgt_lang tone domain σ = (Ok PROMPT, σ))
    as Hblank.
  { intros text Hb. apply translate_text_empty.
    rewrite or_empty_Some. by apply strip_blank. }
  split_and!; [|apply Hblank, blank_spaces|exact Hblank].
  apply Hblank. constructor.
Qed.

Lemma translate_text_empty_input_witness :
  blank "   " ∧
  translate_text stub_pipeline (Some "   ") "English" "French" "Formal" "Business" init_state
  = (Ok "Please enter some text to translate.", init_state).
Proof.
  split; [apply blank_spaces|].
  exact (proj2 (proj2 (translate_text_empty_input stub_pipeline
                         "English" "French" "Formal" "Business" init_state))
           "   " blank_spaces).
Defined.

(** C7, as stated: [back_translate] returns the prompt message twice for an
    empty text.  The second component it returns is the empty string. *)
Lemma back_translate_empty_prompt_twice_fails :
  ¬ (∀ pipeline (src_lang tgt_lang tone domain : string) σ,
       (back_translate pipeline (Some "") src_lang tgt_lang tone domain σ).1
       = Ok (PROMPT, PROMPT)).
Proof.
  intros H.
  specialize (H stub_pipeline "English" "German" "Neutral" "General" init_state).
  vm_compute in H. discriminate.
Qed.

(** C7, amended: with any languages, tone and domain, [back_translate]
    applied to an empty or whitespace-only text returns the prompt message
    as the forward component and the empty string as the backward
    component; the state is unchanged. *)
Theorem back_translate_empty_input pipeline (src_lang tgt_lang tone domain : string) σ :
  back_translate pipeline (Some "") src_lang tgt_lang tone domain σ
  = (Ok (PROMPT, ""), σ) ∧
  ∀ text, blank text →
    back_translate pipeline (Some text) src_lang tgt_lang tone domain σ
    = (Ok (PROMPT, ""), σ).
Proof.
  assert (∀ text, blank text →
    back_translate pipeline (Some text) src_lang tgt_lang tone domain σ
    = (Ok (PROMPT, ""), σ)) as Hblank.
  { intros text Hb. unfold back_translate.
    rewrite or_empty_Some, (strip_blank text Hb). done. }
  split; [|exact Hblank]. apply Hblank. constructor.
Qed.

Lemma back_translate_empty_input_witness :
  blank "   " ∧
  back_translate stub_pipeline (Some "   ") "English" "German" "Formal" "Business" init_state
  = (Ok ("Please enter some text to translate.", ""), init_state).
Proof.
  split; [apply blank_spaces|].
  exact (proj2 (back_translate_empty_input stub_pipeline
                  "English" "German" "Formal" "Business" init_state)
           "   " blank_spaces).
Defined.

(** C8: with the default hints "Neutral" and "General",
    [_apply_style_hints] returns the text as it is, for every text and
    every target language name. *)
Theorem style_hint_neutrality (text tgt_lang : string) :
  _apply_style_hints text "Neutral" "General" tgt_lang = text.
Proof. reflexivity. Qed.

(** C9: when the tone or the domain is not the default,
    [_apply_style_hints] puts before the text the prefix
    "[<domain> context, <tone> tone in <target language>] ", with the
    clause of an axis only when that axis is not the default.
    [_apply_style_hints("Hi", "Formal", "Business", "French")] holds
    "Business context", "Formal tone" and "Hi", in that order. *)
Theorem style_hint_composition (text tone domain tgt_lang : string) :
  (domain ≠ "General" → tone ≠ "Neutral" →
   _apply_style_hints text tone domain tgt_lang
   = "[" +:+ ((domain +:+ " context") +:+ ", " +:+ (tone +:+ " tone"))
         +:+ " in " +:+ tgt_lang +:+ "] " +:+ text) ∧
  (domain ≠ "General" → tone = "Neutral" →
   _apply_style_hints text tone domain tgt_lang
   = "[" +:+ (domain +:+ " context") +:+ " in " +:+ tgt_lang +:+ "] " +:+ text) ∧
  (domain = "General" → tone ≠ "Neutral" →
   _apply_style_hints text tone domain tgt_lang
   = "[" +:+ (tone +:+ " tone") +:+ " in " +:+ tgt_lang +:+ "] " +:+ text) ∧
  (let styled := _apply_style_hints "Hi" "Formal" "Business" "French" in
   styled = "[Business context, Formal tone in French] " +:+ "Hi" ∧
   find "Business context" styled = Some 1%nat ∧
   find "Formal tone" styled = Some 19%nat ∧
   find "Hi" styled = Some 42%nat).
Proof.
  unfold _apply_style_hints. split_and!.
  - intros Hdom Htone. rewrite !bool_decide_eq_true_2 by done. done.
  - intros Hdom ->. by rewrite (bool_decide_eq_true_2 (domain ≠ "General")).
  - intros -> Htone. by rewrite (bool_decide_eq_true_2 (tone ≠ "Neutral")).
  - done.
  - done.
  - done.
  - done.
Qed.

Lemma style_hint_composition_witness :
  "Technical" ≠ "General" ∧ "Informal" ≠ "Neutral" ∧
  _apply_style_hints "See you" "Informal" "Technical" "Swedish"
  = "[Technical context, Informal tone in Swedish] See you".
Proof.
  assert ("Technical" ≠ "General") as Hdom by discriminate.
  assert ("Informal" ≠ "Neutral") as Htone by discriminate.
  split; [exact Hdom|]. split; [exact Htone|].
  exact (proj1 (style_hint_composition "See you" "Informal" "Technical" "Swedish")
           Hdom Htone).
Defined.

(** C10: a call of [get_translation_pipeline] with a pair that is not in
    [MODEL_MAP] raises and leaves the state, the cache included, as it was;
    in every state the process reaches, each key of
    [_translation_pipelines] is a key of [MODEL_MAP]. *)
Theorem cache_error_atomicity pipeline :
  (∀ src_code tgt_code σ,
     MODEL_MAP !! (src_code, tgt_code) = None →
     get_translation_pipeline pipeline src_code tgt_code σ
     = (Raise (ValueError (unsupported_msg src_code tgt_code)), σ)) ∧
  (∀ σ, reachable pipeline σ →
     ∀ key, is_Some (_translation_pipelines σ !! key) → is_Some (MODEL_MAP !! key)).
Proof.
  split.
  - intros src_code tgt_code σ Hk. by apply get_translation_pipeline_unsupported.
  - intros σ Hσ%reachable_cache_inv key [t Hc]. specialize (Hσ key).
    rewrite Hc in Hσ. destruct Hσ as (m & Hk & _). by exists m.
Qed.

Lemma cache_error_atomicity_witness :
  let σ := exec stub_pipeline (Translate (Some "Hej") "Swedish" "English" "Neutral" "General")
             init_state in
  MODEL_MAP !! ("sv", "fr") = None ∧
  reachable stub_pipeline σ ∧
  is_Some (_translation_pipelines σ !! ("sv", "en")) ∧
  (get_translation_pipeline stub_pipeline "sv" "fr" σ).2 = σ ∧
  is_Some (MODEL_MAP !! ("sv", "en")).
Proof.
  intros σ.
  assert (MODEL_MAP !! ("sv", "fr") = None) as Hk by reflexivity.
  assert (reachable stub_pipeline σ) as Hσ by apply reachable_call, reachable_init.
  assert (is_Some (_translation_pipelines σ !! ("sv", "en"))) as Hc
    by (eexists; reflexivity).
  destruct (cache_error_atomicity stub_pipeline) as [Hraise Hkeys].
  split_and!; [exact Hk|exact Hσ|exact Hc| |].
  - by rewrite (Hraise "sv" "fr" σ Hk).
  - exact (Hkeys σ Hσ ("sv", "en") Hc).
Defined.

(** ** More on strings: reversal and [strip] *)

Lemma append_cons a s1 s2 : String a s1 +:+ s2 = String a (s1 +:+ s2).
Proof. reflexivity. Qed.

Lemma append_nil_r s : s +:+ "" = s.
Proof. induction s as [|a s IH]; [done|]. by rewrite append_cons, IH. Qed.

Lemma append_assoc s1 s2 s3 : (s1 +:+ s2) +:+ s3 = s1 +:+ s2 +:+ s3.
Proof. induction s1 as [|a s1 IH]; [done|]. by rewrite !append_cons, IH. Qed.

Lemma append_eq_nil s1 s2 : s1 +:+ s2 = "" → s1 = "" ∧ s2 = "".
Proof. by destruct s1. Qed.

Lemma rev_app_append s1 s2 : String.rev_app s1 s2 = String.rev s1 +:+ s2.
Proof.
  unfold String.rev. revert s2.
  induction s1 as [|a s1 IH]; intros s2; [done|]. simpl.
  rewrite (IH (String a "")), IH, append_assoc. done.
Qed.

Lemma rev_cons a s : String.rev (String a s) = String.rev s +:+ String a "".
Proof. unfold String.rev at 1. simpl. apply rev_app_append. Qed.

Lemma rev_append s1 s2 : String.rev (s1 +:+ s2) = String.rev s2 +:+ String.rev s1.
Proof.
  induction s1 as [|a s1 IH]; [by rewrite append_nil_r|].
  by rewrite append_cons, !rev_cons, IH, append_assoc.
Qed.

Lemma rev_involutive s : String.rev (String.rev s) = s.
Proof.
  induction s as [|a s IH]; [done|].
  by rewrite rev_cons, rev_append, IH.
Qed.

Lemma length_rev s : String.length (String.rev s) = String.length s.
Proof.
  induction s as [|a s IH]; [done|].
  rewrite rev_cons, length_append, IH. simpl. lia.
Qed.

Lemma after_Some w s rest : after w s = Some rest → s = w +:+ rest.
Proof.
  revert s. induction w as [|a w IH]; intros s Ha; simpl in Ha.
  - by injection Ha as ->.
  - destruct s as [|b s]; [done|]. case_decide; [|done]. subst b.
    by rewrite append_cons, <- (IH s Ha).
Qed.

Lemma after_append w rest : after w (w +:+ rest) = Some rest.
Proof.
  induction w as [|a w IH]; [done|]. rewrite append_cons. simpl.
  by rewrite decide_True.
Qed.

Lemma drop_one_Some table s rest :
  drop_one table s = Some rest → ∃ w, w ∈ table ∧ s = w +:+ rest.
Proof.
  induction table as [|w table IH]; [done|]. simpl.
  destruct (after w s) as [r|] eqn:Ha.
  - intros [= ->]. exists w. split; [left|]. by apply after_Some.
  - intros (w' & Hw' & ->)%IH. exists w'. split; [by right|done].
Qed.

Lemma drop_one_None table w rest :
  w ∈ table → drop_one table (w +:+ rest) = None → False.
Proof.
  induction table as [|w' table IH]; [by intros ?%elem_of_nil|].
  intros [->|Hw]%elem_of_cons; simpl.
  - by rewrite after_append.
  - destruct (after w' (w +:+ rest)); [done|]. by apply IH.
Qed.

(** Once nothing more can be removed, [drop_leading] is done. *)
Lemma drop_leading_id table n s : drop_one table s = None → drop_leading table n s = s.
Proof. intros Hs. destruct n; simpl; [done|]. by rewrite Hs. Qed.

Lemma drop_leading_suffix table n s : ∃ p, s = p +:+ drop_leading table n s.
Proof.
  revert s. induction n as [|n IH]; intros s; simpl; [by exists ""|].
  destruct (drop_one table s) as [rest|] eqn:Hd; [|by exists ""].
  apply drop_one_Some in Hd as (w & _ & ->).
  destruct (IH rest) as [p Hp]. exists (w +:+ p).
  by rewrite append_assoc, <- Hp.
Qed.

(** With as many steps as the string has bytes, nothing is left to remove. *)
Lemma drop_leading_done table n s :
  Forall (λ w, w ≠ "") table →
  (String.length s ≤ n)%nat →
  drop_one table (drop_leading table n s) = None.
Proof.
  intros Htable. revert s. induction n as [|n IH]; intros s Hn; simpl.
  - destruct s; [|simpl in Hn; lia].
    destruct (drop_one table "") as [rest|] eqn:Hd; [|done].
    apply drop_one_Some in Hd as (w & Hw & [-> _]%eq_sym%append_eq_nil).
    rewrite Forall_forall in Htable. by destruct (Htable "" Hw).
  - destruct (drop_one table s) as [rest|] eqn:Hd; [|done].
    apply IH. apply drop_one_Some in Hd as (w & Hw & ->).
    rewrite Forall_forall in Htable. specialize (Htable w Hw).
    rewrite length_append in Hn. destruct w; [done|]. simpl in Hn. lia.
Qed.

Lemma WHITESPACE_nonempty : Forall (λ w, w ≠ "") WHITESPACE.
Proof. eapply bool_decide_unpack. vm_compute. exact I. Qed.

Lemma WHITESPACE_rev_nonempty : Forall (λ w, w ≠ "") (String.rev <$> WHITESPACE).
Proof. eapply bool_decide_unpack. vm_compute. exact I. Qed.

Lemma lstrip_no_leading s : drop_one WHITESPACE (lstrip s) = None.
Proof. apply drop_leading_done; [apply WHITESPACE_nonempty|done]. Qed.

(** The trimmed text, seen from its end and from its start. *)
Lemma strip_no_trailing s :
  drop_one (String.rev <$> WHITESPACE) (String.rev (strip s)) = None.
Proof.
  unfold strip, rstrip. rewrite rev_involutive.
  apply drop_leading_done; [apply WHITESPACE_rev_nonempty|].
  by rewrite length_rev.
Qed.

Lemma strip_prefix_lstrip s : ∃ q, lstrip s = strip s +:+ q.
Proof.
  unfold strip, rstrip.
  destruct (drop_leading_suffix (String.rev <$> WHITESPACE)
              (String.length (lstrip s)) (String.rev (lstrip s))) as [p Hp].
  exists (String.rev p).
  rewrite <- rev_append, <- Hp. by rewrite rev_involutive.
Qed.

Lemma strip_no_leading s : drop_one WHITESPACE (strip s) = None.
Proof.
  destruct (drop_one WHITESPACE (strip s)) as [rest|] eqn:Hd; [|done].
  apply drop_one_Some in Hd as (w & Hw & Hs).
  destruct (strip_prefix_lstrip s) as [q Hq].
  rewrite Hs, append_assoc in Hq.
  destruct (drop_one_None WHITESPACE w (rest +:+ q) Hw).
  rewrite <- Hq. apply lstrip_no_leading.
Qed.

(** A text without whitespace at its two ends is its own trimmed text. *)
Lemma strip_fixed s :
  drop_one WHITESPACE s = None →
  drop_one (String.rev <$> WHITESPACE) (String.rev s) = None →
  strip s = s.
Proof.
  intros Hl Hr. unfold strip, rstrip, lstrip.
  rewrite (drop_leading_id _ _ _ Hl), (drop_leading_id _ _ _ Hr).
  apply rev_involutive.
Qed.

Lemma strip_idemp s : strip (strip s) = strip s.
Proof. apply strip_fixed; [apply strip_no_leading|apply strip_no_trailing]. Qed.


Lemma strip_unsupported_msg src_code tgt_code :
  strip (unsupported_msg src_code tgt_code) = unsupported_msg src_code tgt_code.
Proof.
  apply strip_fixed; [reflexivity|]. unfold unsupported_msg.
  rewrite <- !append_assoc, rev_append. reflexivity.
Qed.

(** ** More on the tables *)

Lemma MODEL_MAP_symmetric :
  map_Forall (λ k _, is_Some (MODEL_MAP !! (k.2, k.1))) MODEL_MAP.
Proof. eapply bool_decide_unpack. vm_compute. exact I. Qed.

Lemma MODEL_MAP_unsupported_sym src_code tgt_code :
  MODEL_MAP !! (src_code, tgt_code) = None → MODEL_MAP !! (tgt_code, src_code) = None.
Proof.
  intros Hk. destruct (MODEL_MAP !! (tgt_code, src_code)) as [m|] eqn:Hk'; [|done].
  destruct (MODEL_MAP_symmetric _ _ Hk') as [m' Hm']. simpl in Hm'. congruence.
Qed.

Lemma MODEL_MAP_size : size MODEL_MAP = 8%nat.
Proof. reflexivity. Qed.

Lemma LANG_CODES_registered name code :
  LANG_CODES !! name = Some code →
  (name, code) ∈ [ ("English", "en"); ("French", "fr"); ("German", "de");
                   ("Spanish", "es"); ("Swedish", "sv") ].
Proof. apply elem_of_list_to_map_2. Qed.


(** ** More on the calls *)

Section Calls.

Variable pipeline : string → string → Translator.
Variable explain_llm : Generator.

(** The outcomes of [get_translation_pipeline] in any state. *)
Lemma get_translation_pipeline_outcome src_code tgt_code σ :
  (MODEL_MAP !! (src_code, tgt_code) = None ∧
   get_translation_pipeline pipeline src_code tgt_code σ
   = (Raise (ValueError (unsupported_msg src_code tgt_code)), σ))
  ∨ (∃ model_name t,
      MODEL_MAP !! (src_code, tgt_code) = Some model_name ∧
      _translation_pipelines σ !! (src_code, tgt_code) = Some t ∧
      get_translation_pipeline pipeline src_code tgt_code σ = (Ok t, σ))
  ∨ (∃ model_name,
      MODEL_MAP !! (src_code, tgt_code) = Some model_name ∧
      _translation_pipelines σ !! (src_code, tgt_code) = None ∧
      get_translation_pipeline pipeline src_code tgt_code σ
      = (Ok (pipeline (task_name src_code tgt_code) model_name),
         loaded pipeline (src_code, tgt_code) model_name σ)).
Proof.
  destruct (MODEL_MAP !! (src_code, tgt_code)) as [m|] eqn:Hk.
  - right. destruct (_translation_pipelines σ !! (src_code, tgt_code)) as [t|] eqn:Hc.
    + left. exists m, t. split_and!; [done..|]. by eapply get_translation_pipeline_hit.
    + right. exists m. split_and!; [done..|]. by apply get_translation_pipeline_miss.
  - left. split; [done|]. by apply get_translation_pipeline_unsupported.
Qed.

(** Trimming the text before the call changes nothing. *)
Lemma translate_text_trim_arg text src_lang tgt_lang tone domain :
  translate_text pipeline (Some (strip (or_empty text))) src_lang tgt_lang tone domain
  = translate_text pipeline text src_lang tgt_lang tone domain.
Proof. unfold translate_text. by rewrite or_empty_Some, strip_idemp. Qed.

Lemma extends_refl σ : extends σ σ.
Proof. split; [done|]. by exists []; rewrite app_nil_r. Qed.

Lemma extends_trans σ1 σ2 σ3 : extends σ1 σ2 → extends σ2 σ3 → extends σ1 σ3.
Proof. intros [Hc1 Hl1] [Hc2 Hl2]. split; by etrans. Qed.

Lemma extends_loaded key model_name σ :
  _translation_pipelines σ !! key = None →
  extends σ (loaded pipeline key model_name σ).
Proof.
  intros Hc. split; simpl.
  - by apply insert_subseteq.
  - by apply prefix_app_r.
Qed.

Lemma extends_get_translation_pipeline src_code tgt_code σ :
  extends σ (get_translation_pipeline pipeline src_code tgt_code σ).2.
Proof.
  destruct (get_translation_pipeline_outcome src_code tgt_code σ)
    as [[_ ->]|[(m & t & _ & _ & ->)|(m & _ & Hc & ->)]]; simpl;
    [apply extends_refl..|by apply extends_loaded].
Qed.

(** The state after [learning_mode_feedback] and [translate_and_explain]
    is the state after a call of [translate_text], or the state before. *)
Lemma learning_mode_feedback_state src_text user_translation src_lang tgt_lang σ :
  (learning_mode_feedback pipeline explain_llm src_text user_translation src_lang tgt_lang σ).2
  = σ ∨
  (learning_mode_feedback pipeline explain_llm src_text user_translation src_lang tgt_lang σ).2
  = (translate_text pipeline src_text src_lang tgt_lang "Neutral" "General" σ).2.
Proof.
  unfold learning_mode_feedback.
  destruct (negb (truthy (strip (or_empty src_text)))
            || negb (truthy (strip (or_empty user_translation)))); [by left|].
  right. unfold bind. rewrite translate_text_trim_arg.
  by destruct (translate_text pipeline src_text src_lang tgt_lang "Neutral" "General" σ)
    as [[mt|e] σ'].
Qed.

Lemma translate_and_explain_state text src tgt tone domain do_explain σ :
  (translate_and_explain pipeline explain_llm text src tgt tone domain do_explain σ).2
  = (translate_text pipeline text src tgt tone domain σ).2.
Proof.
  unfold translate_and_explain, bind.
  destruct (translate_text pipeline text src tgt tone domain σ) as [[t|e] σ']; [|done].
  by destruct do_explain.
Qed.

(** What the calls of [translate_text] preserve, the clicks preserve. *)
Lemma handle_preserves (P : state → Prop) c σ :
  (∀ src_code tgt_code σ',
     P σ' → P (get_translation_pipeline pipeline src_code tgt_code σ').2) →
  P σ → P (handle pipeline explain_llm c σ).
Proof.
  intros Hget HP. destruct c; simpl.
  - rewrite translate_and_explain_state. by apply translate_text_preserves.
  - by apply back_translate_preserves.
  - destruct (learning_mode_feedback_state src_text user_translation src_lang tgt_lang σ)
      as [-> | ->]; [done|]. by apply translate_text_preserves.
Qed.


(** Past its guard, [learning_mode_feedback] is the call of
    [translate_text], the generator call and the report. *)
Lemma learning_mode_feedback_nonblank (src_text user_translation src_lang tgt_lang : string) σ :
  strip src_text ≠ "" →
  strip user_translation ≠ "" →
  learning_mode_feedback pipeline explain_llm (Some src_text) (Some user_translation)
    src_lang tgt_lang σ
  = match translate_text pipeline (Some src_text) src_lang tgt_lang "Neutral" "General" σ with
    | (Ok model_translation, σ') =>
        (Ok (feedback_report model_translation
               (strip (explain_llm
                         (feedback_prompt (strip src_text) (strip user_translation)
                            model_translation src_lang tgt_lang)
                         320 0.4%Q))),
         σ')
    | (Raise e, σ') => (Raise e, σ')
    end.
Proof.
  intros Hs%truthy_true Hu%truthy_true. unfold learning_mode_feedback.
  rewrite !or_empty_Some, Hs, Hu. simpl. unfold bind.
  rewrite <- (or_empty_Some src_text) at 1. rewrite translate_text_trim_arg.
  by destruct (translate_text pipeline (Some src_text) src_lang tgt_lang
                 "Neutral" "General" σ) as [[mt|e] σ'].
Qed.

End Calls.

(** ** Further properties of [app.py] *)



(** X2: in every state the process reaches, [back_translate] gives as its
    forward component what [translate_text] returns for the same
    arguments, and it raises when, and what, [translate_text] raises. *)
Theorem back_translate_forward pipeline text (src_lang tgt_lang tone domain : string) σ :
  reachable pipeline σ →
  (∀ forward,
     (translate_text pipeline text src_lang tgt_lang tone domain σ).1 = Ok forward →
     ∃ backward,
       (back_translate pipeline text src_lang tgt_lang tone domain σ).1
       = Ok (forward, backward)) ∧
  (∀ e,
     (translate_text pipeline text src_lang tgt_lang tone domain σ).1 = Raise e →
     (back_translate pipeline text src_lang tgt_lang tone domain σ).1 = Raise e).
Proof.
  intros Hσ%reachable_cache_inv. unfold back_translate.
  destruct (decide (strip (or_empty text) = "")) as [He|Hne].
  { rewrite translate_text_empty, He by done. simpl.
    split; [intros ? [= <-]; eauto|done]. }
  apply truthy_true in Hne as Htruthy. rewrite Htruthy. simpl.
  destruct (decide (src_lang = tgt_lang)) as [->|Hd].
  { rewrite translate_text_same, bool_decide_eq_true_2 by done. simpl.
    split; [intros ? [= <-]; eauto|done]. }
  rewrite bool_decide_eq_false_2 by done. unfold bind.
  rewrite translate_text_trim_arg.
  pose proof (translate_text_distinct pipeline text src_lang tgt_lang tone domain σ Hne Hd)
    as Hcall.
  pose proof (translate_text_preserves pipeline (cache_inv pipeline)
                (λ s t σ0 H, cache_inv_get_translation_pipeline pipeline s t σ0 H)
                text src_lang tgt_lang tone domain σ Hσ) as Hσ1.
  destruct (translate_text pipeline text src_lang tgt_lang tone domain σ)
    as [[forward|e] σ1]; simpl in *; [|split; [done|by intros ? [= <-]]].
  split; [|done]. intros ? [= <-].
  assert (is_Some (LANG_CODES !! src_lang) ∧ is_Some (LANG_CODES !! tgt_lang))
    as [Hs Ht].
  { destruct (LANG_CODES !! src_lang); [|done].
    destruct (LANG_CODES !! tgt_lang); [|done]. split; by eexists. }
  destruct (translate_text_returns pipeline (Some forward)
              tgt_lang src_lang "Neutral" "General" σ1 Hσ1 Ht Hs) as (backward & σ2 & ->).
  by exists backward.
Qed.

Lemma back_translate_forward_witness :
  reachable stub_pipeline init_state ∧
  (translate_text stub_pipeline (Some "hi") "Klingon" "French" "Neutral" "General"
     init_state).1
  = Raise (KeyError (KStr "Klingon")) ∧
  (back_translate stub_pipeline (Some "hi") "Klingon" "French" "Neutral" "General"
     init_state).1
  = Raise (KeyError (KStr "Klingon")).
Proof.
  assert ((translate_text stub_pipeline (Some "hi") "Klingon" "French" "Neutral" "General"
             init_state).1
          = Raise (KeyError (KStr "Klingon"))) as Hraise by reflexivity.
  split; [apply reachable_init|]. split; [exact Hraise|].
  exact (proj2 (back_translate_forward stub_pipeline (Some "hi") "Klingon" "French"
                  "Neutral" "General" init_state (reachable_init _)) _ Hraise).
Defined.

(** X3: for two distinct registered languages whose pair has a model and a
    text that is not empty once trimmed, in every state the process
    reaches, [translate_text] returns the trimmed output of that pair's
    pipeline on the styled trimmed text with [max_length=512]; afterwards
    the pair is cached and its model has been loaded exactly once. *)
Theorem translate_text_supported pipeline
    text (src_lang tgt_lang tone domain src_code tgt_code model_name : string) σ :
  reachable pipeline σ →
  strip (or_empty text) ≠ "" →
  src_lang ≠ tgt_lang →
  LANG_CODES !! src_lang = Some src_code →
  LANG_CODES !! tgt_lang = Some tgt_code →
  MODEL_MAP !! (src_code, tgt_code) = Some model_name →
  let translator := pipeline (task_name src_code tgt_code) model_name in
  let r := translate_text pipeline text src_lang tgt_lang tone domain σ in
  r.1 = Ok (strip (translator
                     (_apply_style_hints (strip (or_empty text)) tone domain tgt_lang) 512)) ∧
  _translation_pipelines r.2 !! (src_code, tgt_code) = Some translator ∧
  load_count r.2 (src_code, tgt_code) = 1%nat.
Proof.
  intros Hσ%reachable_cache_inv Hne Hd Hs Ht Hk translator r. subst r.
  rewrite translate_text_distinct, Hs, Ht by done.
  pose proof (Hσ (src_code, tgt_code)) as Hinv.
  destruct (get_translation_pipeline_cases pipeline src_code tgt_code σ Hσ)
    as [[Hk' _]|[(m & Hk' & Hc & Hget)|(m & Hk' & Hc & Hget)]]; [congruence|..];
    assert (m = model_name) as -> by congruence;
    rewrite Hget; rewrite Hc in Hinv; simpl.
  - destruct Hinv as (_ & _ & _ & Hcount). done.
  - split_and!; [done|apply lookup_insert_eq|].
    by rewrite load_count_loaded_same, Hinv.
Qed.

Lemma translate_text_supported_witness :
  reachable stub_pipeline init_state ∧
  (translate_text stub_pipeline (Some " Hola ") "Spanish" "English" "Neutral" "Casual"
     init_state).1
  = Ok (strip (stub_pipeline "translation_es_to_en" "Helsinki-NLP/opus-mt-es-en"
                 (_apply_style_hints "Hola" "Neutral" "Casual" "English") 512)).
Proof.
  split; [apply reachable_init|].
  refine (proj1 (translate_text_supported stub_pipeline (Some " Hola ") "Spanish" "English"
                   "Neutral" "Casual" "es" "en" "Helsinki-NLP/opus-mt-es-en" init_state
                   (reachable_init _) _ _ _ _ _)); try reflexivity.
  - vm_compute. discriminate.
  - discriminate.
Defined.

(** X4: between two distinct registered languages a model is configured
    exactly when one of the two is English; otherwise [translate_text]
    answers a text that is not empty once trimmed with the message of the
    unsupported pair and leaves the state as it is. *)
Theorem translate_text_needs_english pipeline
    text (src_lang tgt_lang tone domain src_code tgt_code : string) σ :
  strip (or_empty text) ≠ "" →
  src_lang ≠ tgt_lang →
  LANG_CODES !! src_lang = Some src_code →
  LANG_CODES !! tgt_lang = Some tgt_code →
  (is_Some (MODEL_MAP !! (src_code, tgt_code))
   ↔ src_lang = "English" ∨ tgt_lang = "English") ∧
  (src_lang ≠ "English" → tgt_lang ≠ "English" →
   translate_text pipeline text src_lang tgt_lang tone domain σ
   = (Ok (unsupported_msg src_code tgt_code), σ)).
Proof.
  intros Hne Hd Hs Ht.
  assert (is_Some (MODEL_MAP !! (src_code, tgt_code))
          ↔ src_lang = "English" ∨ tgt_lang = "English") as Hiff.
  { apply LANG_CODES_registered, list_elem_of_In in Hs.
    apply LANG_CODES_registered, list_elem_of_In in Ht.
    simpl in Hs, Ht.
    repeat (destruct Hs as [[= <- <-]|Hs]);
      repeat (destruct Ht as [[= <- <-]|Ht]); try done;
      (split; [intros [m Hm]; vm_compute in Hm; first [discriminate|tauto]
              |intros [?|?]; first [discriminate|by eexists]]). }
  split; [exact Hiff|]. intros Hsrc Htgt.
  rewrite translate_text_distinct, Hs, Ht by done.
  rewrite get_translation_pipeline_unsupported; [done|].
  destruct (MODEL_MAP !! (src_code, tgt_code)) as [m|] eqn:Hk; [|done].
  destruct (proj1 Hiff (ex_intro _ m eq_refl)); done.
Qed.

Lemma translate_text_needs_english_witness :
  strip (or_empty (Some "Hallo")) ≠ "" ∧
  "German" ≠ "Spanish" ∧
  LANG_CODES !! "German" = Some "de" ∧
  LANG_CODES !! "Spanish" = Some "es" ∧
  translate_text stub_pipeline (Some "Hallo") "German" "Spanish" "Neutral" "General" init_state
  = (Ok "Language pair de->es not supported yet.", init_state).
Proof.
  assert (strip (or_empty (Some "Hallo")) ≠ "") as Hne by (vm_compute; discriminate).
  assert ("German" ≠ "Spanish") as Hd by discriminate.
  assert (LANG_CODES !! "German" = Some "de") as Hs by reflexivity.
  assert (LANG_CODES !! "Spanish" = Some "es") as Ht by reflexivity.
  split_and!; [exact Hne|exact Hd|exact Hs|exact Ht|].
  refine (proj2 (translate_text_needs_english stub_pipeline (Some "Hallo") "German" "Spanish"
                   "Neutral" "General" "de" "es" init_state Hne Hd Hs Ht) _ _);
    discriminate.
Defined.

(** X5: for two distinct registered languages whose pair has no model and
    a text that is not empty once trimmed, [back_translate] returns the
    message of the unsupported pair as forward component and the message
    of the reverse pair as backward component, and loads nothing. *)
Theorem back_translate_unsupported pipeline
    text (src_lang tgt_lang tone domain src_code tgt_code : string) σ :
  strip (or_empty text) ≠ "" →
  src_lang ≠ tgt_lang →
  LANG_CODES !! src_lang = Some src_code →
  LANG_CODES !! tgt_lang = Some tgt_code →
  MODEL_MAP !! (src_code, tgt_code) = None →
  back_translate pipeline text src_lang tgt_lang tone domain σ
  = (Ok (unsupported_msg src_code tgt_code, unsupported_msg tgt_code src_code), σ).
Proof.
  intros Hne Hd Hs Ht Hk. unfold back_translate.
  apply truthy_true in Hne as Htruthy. rewrite Htruthy. simpl.
  rewrite bool_decide_eq_false_2 by done. unfold bind.
  rewrite translate_text_trim_arg.
  rewrite translate_text_distinct, Hs, Ht by done.
  rewrite get_translation_pipeline_unsupported by done.
  rewrite translate_text_distinct, Hs, Ht; [| |done].
  - by rewrite get_translation_pipeline_unsupported by by apply MODEL_MAP_unsupported_sym.
  - rewrite or_empty_Some, strip_unsupported_msg. done.
Qed.

Lemma back_translate_unsupported_witness :
  strip (or_empty (Some " Bonjour ")) ≠ "" ∧
  "French" ≠ "Swedish" ∧
  MODEL_MAP !! ("fr", "sv") = None ∧
  back_translate stub_pipeline (Some " Bonjour ") "French" "Swedish" "Formal" "Casual"
    init_state
  = (Ok ("Language pair fr->sv not supported yet.",
         "Language pair sv->fr not supported yet."), init_state).
Proof.
  assert (strip (or_empty (Some " Bonjour ")) ≠ "") as Hne by (vm_compute; discriminate).
  assert ("French" ≠ "Swedish") as Hd by discriminate.
  assert (MODEL_MAP !! ("fr", "sv") = None) as Hk by reflexivity.
  split_and!; [exact Hne|exact Hd|exact Hk|].
  exact (back_translate_unsupported stub_pipeline (Some " Bonjour ") "French" "Swedish"
           "Formal" "Casual" "fr" "sv" init_state Hne Hd eq_refl eq_refl Hk).
Defined.

(** X6: [_apply_style_hints] only adds in front: its result ends with the
    text, and it is the text itself exactly when the tone is "Neutral" and
    the domain is "General". *)
Theorem style_hints_prefix (text tone domain tgt_lang : string) :
  (∃ prefix, _apply_style_hints text tone domain tgt_lang = prefix +:+ text) ∧
  (_apply_style_hints text tone domain tgt_lang = text
   ↔ tone = "Neutral" ∧ domain = "General").
Proof.
  assert (∀ hint_str,
    "[" +:+ hint_str +:+ " in " +:+ tgt_lang +:+ "] " +:+ text
    = ("[" +:+ hint_str +:+ " in " +:+ tgt_lang +:+ "] ") +:+ text) as Hassoc.
  { intros hint_str. by rewrite !append_assoc. }
  assert (∀ hint_str,
    "[" +:+ hint_str +:+ " in " +:+ tgt_lang +:+ "] " +:+ text ≠ text) as Hlonger.
  { intros hint_str Heq. apply (f_equal String.length) in Heq.
    rewrite !length_append in Heq. simpl in Heq. lia. }
  unfold _apply_style_hints.
  destruct (decide (domain = "General")) as [->|Hdom];
    destruct (decide (tone = "Neutral")) as [->|Htone].
  - simpl. split; [by exists ""|done].
  - rewrite (bool_decide_eq_true_2 (tone ≠ "Neutral")) by done. simpl.
    split; [eexists; apply Hassoc|]. split; [by intros ?%Hlonger|by intros [? _]].
  - rewrite (bool_decide_eq_true_2 (domain ≠ "General")) by done. simpl.
    split; [eexists; apply Hassoc|]. split; [by intros ?%Hlonger|by intros [_ ?]].
  - rewrite (bool_decide_eq_true_2 (domain ≠ "General")),
      (bool_decide_eq_true_2 (tone ≠ "Neutral")) by done. simpl.
    split; [eexists; apply Hassoc|]. split; [by intros ?%Hlonger|by intros [? _]].
Qed.

(** X7: no click takes anything back: after any handler, every pipeline
    that was cached is still cached, unchanged, and the log of loads has
    only grown at its end. *)
Theorem handlers_only_extend pipeline explain_llm c σ :
  extends σ (handle pipeline explain_llm c σ).
Proof.
  apply (handle_preserves pipeline explain_llm (extends σ)); [|apply extends_refl].
  intros src_code tgt_code σ' Hσ'. eapply extends_trans; [exact Hσ'|].
  apply extends_get_translation_pipeline.
Qed.

(** X8: the forms reach no state that calls of [get_translation_pipeline],
    [translate_text] and [back_translate] do not reach; so what holds of
    the states those calls reach holds whatever is clicked: each cached
    pair is a pair of [MODEL_MAP], and each model is loaded at most once. *)
Theorem served_states_reachable pipeline explain_llm σ :
  served pipeline explain_llm σ →
  reachable pipeline σ ∧
  (∀ key, is_Some (_translation_pipelines σ !! key) → is_Some (MODEL_MAP !! key)) ∧
  (∀ key, (load_count σ key ≤ 1)%nat).
Proof.
  intros Hserved.
  assert (reachable pipeline σ) as Hσ.
  { induction Hserved as [|c σ _ IH]; [apply reachable_init|].
    destruct c as [text src tgt tone domain do_explain
                  |text src_lang tgt_lang tone domain
                  |src_text user_translation src_lang tgt_lang]; simpl.
    - rewrite translate_and_explain_state.
      apply (reachable_call pipeline (Translate text src tgt tone domain)), IH.
    - apply (reachable_call pipeline (BackTranslate text src_lang tgt_lang tone domain)), IH.
    - destruct (learning_mode_feedback_state pipeline explain_llm
                  src_text user_translation src_lang tgt_lang σ) as [-> | ->]; [done|].
      apply (reachable_call pipeline
               (Translate src_text src_lang tgt_lang "Neutral" "General")), IH. }
  split; [exact Hσ|]. apply reachable_cache_inv in Hσ.
  split; intros key; specialize (Hσ key).
  - intros [t Hc]. rewrite Hc in Hσ. destruct Hσ as (m & Hk & _). by exists m.
  - destruct (_translation_pipelines σ !! key); [|lia].
    destruct Hσ as (_ & _ & _ & ->). lia.
Qed.

Lemma served_states_reachable_witness :
  let σ := handle stub_pipeline stub_explain_llm
             (LearningClick (Some "Hello") (Some "Bonjour") "English" "French") init_state in
  served stub_pipeline stub_explain_llm σ ∧
  is_Some (_translation_pipelines σ !! ("en", "fr")) ∧
  reachable stub_pipeline σ ∧
  (load_count σ ("en", "fr") ≤ 1)%nat.
Proof.
  intros σ.
  assert (served stub_pipeline stub_explain_llm σ) as Hσ
    by apply served_click, served_init.
  destruct (served_states_reachable stub_pipeline stub_explain_llm σ Hσ)
    as (Hreach & _ & Hcount).
  split_and!; [exact Hσ|eexists; reflexivity|exact Hreach|exact (Hcount ("en", "fr"))].
Defined.

(** X9: in every state the process reaches, the log of loads holds the
    load of [explain_llm] and one load for each cached pair, and at most
    the eight pairs of [MODEL_MAP] are cached: no more than nine pipelines
    are ever loaded. *)
Theorem loads_bounded pipeline σ :
  reachable pipeline σ →
  length (pipeline_calls σ) = S (size (_translation_pipelines σ)) ∧
  (size (_translation_pipelines σ) ≤ 8)%nat ∧
  (length (pipeline_calls σ) ≤ 9)%nat.
Proof.
  intros Hσ.
  assert (length (pipeline_calls σ) = S (size (_translation_pipelines σ))) as Hlen.
  { induction Hσ as [|c σ _ IH]; [done|].
    apply (exec_preserves pipeline
             (λ σ, length (pipeline_calls σ) = S (size (_translation_pipelines σ))));
      [|done].
    intros src_code tgt_code σ' Hσ'.
    destruct (get_translation_pipeline_outcome pipeline src_code tgt_code σ')
      as [[_ ->]|[(m & t & _ & _ & ->)|(m & _ & Hc & ->)]]; simpl; [done..|].
    rewrite length_app, map_size_insert_None by done. simpl. lia. }
  assert (size (_translation_pipelines σ) ≤ 8)%nat as Hsize.
  { rewrite <- MODEL_MAP_size, <- !size_dom. apply subseteq_size.
    intros key [t Hc]%elem_of_dom. apply elem_of_dom.
    pose proof (reachable_cache_inv pipeline σ Hσ key) as Hinv.
    rewrite Hc in Hinv. destruct Hinv as (m & Hk & _). by exists m. }
  split_and!; [done..|lia].
Qed.

Lemma loads_bounded_witness :
  let σ := exec stub_pipeline (BackTranslate (Some "Hi") "English" "German" "Formal" "Casual")
             init_state in
  reachable stub_pipeline σ ∧
  length (pipeline_calls σ) = 3%nat ∧
  length (pipeline_calls σ) = S (size (_translation_pipelines σ)).
Proof.
  intros σ.
  assert (reachable stub_pipeline σ) as Hσ by apply reachable_call, reachable_init.
  split_and!; [exact Hσ|reflexivity|].
  exact (proj1 (loads_bounded stub_pipeline σ Hσ)).
Defined.

(** X10: [explain_translation] answers with its guidance text, whatever the
    generator and the languages, when the original text or the translation
    is empty or made of whitespace only; and the text it returns is trimmed
    in every case. *)
Theorem explain_translation_edges explain_llm
    (src_text translated_text src_lang tgt_lang : string) :
  (blank src_text ∨ blank translated_text →
   explain_translation explain_llm (Some src_text) (Some translated_text) src_lang tgt_lang
   = EXPLAIN_GUIDANCE) ∧
  strip (explain_translation explain_llm (Some src_text) (Some translated_text)
           src_lang tgt_lang)
  = explain_translation explain_llm (Some src_text) (Some translated_text) src_lang tgt_lang.
Proof.
  unfold explain_translation. rewrite !or_empty_Some. split.
  - intros [Hb|Hb]; rewrite (strip_blank _ Hb); simpl; [done|].
    by rewrite orb_true_r.
  - destruct (negb (truthy (strip src_text)) || negb (truthy (strip translated_text)));
      [reflexivity|apply strip_idemp].
Qed.

Lemma explain_translation_edges_witness :
  (blank "Hello" ∨ blank "   ") ∧
  explain_translation stub_explain_llm (Some "Hello") (Some "   ") "English" "French"
  = "Provide both the original text and the translation to get an explanation.".
Proof.
  assert (blank "Hello" ∨ blank "   ") as Hb by (right; apply blank_spaces).
  split; [exact Hb|].
  exact (proj1 (explain_translation_edges stub_explain_llm "Hello" "   " "English" "French")
           Hb).
Defined.

(** X11: [learning_mode_feedback] answers with its guidance text when the
    original text or the user's translation is empty or made of whitespace
    only, whatever the languages, also unregistered ones; it translates
    nothing and loads nothing. *)
Theorem learning_mode_feedback_blank pipeline explain_llm
    (src_text user_translation src_lang tgt_lang : string) σ :
  blank src_text ∨ blank user_translation →
  learning_mode_feedback pipeline explain_llm (Some src_text) (Some user_translation)
    src_lang tgt_lang σ
  = (Ok FEEDBACK_GUIDANCE, σ).
Proof.
  unfold learning_mode_feedback. rewrite !or_empty_Some.
  intros [Hb|Hb]; rewrite (strip_blank _ Hb); simpl; [done|].
  by rewrite orb_true_r.
Qed.

Lemma learning_mode_feedback_blank_witness :
  (blank "   " ∨ blank "Bonjour") ∧
  learning_mode_feedback stub_pipeline stub_explain_llm (Some "   ") (Some "Bonjour")
    "English" "Klingon" init_state
  = (Ok "Please provide both the original text and your translation.", init_state).
Proof.
  assert (blank "   " ∨ blank "Bonjour") as Hb by (left; apply blank_spaces).
  split; [exact Hb|].
  exact (learning_mode_feedback_blank stub_pipeline stub_explain_llm "   " "Bonjour"
           "English" "Klingon" init_state Hb).
Defined.

(** X12: when both texts are not empty once trimmed,
    [learning_mode_feedback] runs [translate_text] on the original text
    with the hints "Neutral" and "General": if that call raises, the same
    exception reaches the caller; if it returns a model translation, the
    report holds that translation and the trimmed output of the generator
    on the feedback prompt, with [max_new_tokens=320].  The state is the
    one [translate_text] leaves. *)
Theorem learning_mode_feedback_report pipeline explain_llm
    (src_text user_translation src_lang tgt_lang : string) σ :
  strip src_text ≠ "" →
  strip user_translation ≠ "" →
  learning_mode_feedback pipeline explain_llm (Some src_text) (Some user_translation)
    src_lang tgt_lang σ
  = match translate_text pipeline (Some src_text) src_lang tgt_lang "Neutral" "General" σ with
    | (Ok model_translation, σ') =>
        (Ok (feedback_report model_translation
               (strip (explain_llm
                         (feedback_prompt (strip src_text) (strip user_translation)
                            model_translation src_lang tgt_lang)
                         320 0.4%Q))),
         σ')
    | (Raise e, σ') => (Raise e, σ')
    end.
Proof. apply learning_mode_feedback_nonblank. Qed.

Lemma learning_mode_feedback_report_witness :
  strip " Hello " ≠ "" ∧
  strip "Bonjour" ≠ "" ∧
  (learning_mode_feedback stub_pipeline stub_explain_llm (Some " Hello ") (Some "Bonjour")
     "English" "French" init_state).1
  = Ok (feedback_report "<translation_en_to_fr|Hello>" "Well done.").
Proof.
  assert (strip " Hello " ≠ "") as Hs by (vm_compute; discriminate).
  assert (strip "Bonjour" ≠ "") as Hu by (vm_compute; discriminate).
  split_and!; [exact Hs|exact Hu|].
  rewrite (learning_mode_feedback_report stub_pipeline stub_explain_llm
             " Hello " "Bonjour" "English" "French" init_state Hs Hu).
  reflexivity.
Defined.

(** X13: on a text that is empty or made of whitespace only,
    [translate_and_explain] returns the prompt of [translate_text] and,
    when an explanation is asked for, the guidance of
    [explain_translation] beside it: nothing is translated, generated or
    loaded. *)
Theorem translate_and_explain_blank pipeline explain_llm
    (text src tgt tone domain : string) (do_explain : bool) σ :
  blank text →
  translate_and_explain pipeline explain_llm (Some text) src tgt tone domain do_explain σ
  = (Ok (PROMPT, if do_explain then EXPLAIN_GUIDANCE else ""), σ).
Proof.
  intros Hb. unfold translate_and_explain, bind.
  rewrite translate_text_empty by (by rewrite or_empty_Some, strip_blank).
  destruct do_explain; simpl; [|done].
  unfold ret, explain_translation. by rewrite or_empty_Some, strip_blank.
Qed.

Lemma translate_and_explain_blank_witness :
  blank "   " ∧
  translate_and_explain stub_pipeline stub_explain_llm (Some "   ")
    "English" "French" "Neutral" "General" true init_state
  = (Ok ("Please enter some text to translate.",
         "Provide both the original text and the translation to get an explanation."),
     init_state).
Proof.
  split; [apply blank_spaces|].
  exact (translate_and_explain_blank stub_pipeline stub_explain_llm "   "
           "English" "French" "Neutral" "General" true init_state blank_spaces).
Defined.

(** ** The forms never fail on the languages they offer *)

Section Returns.

Variable pipeline : string → string → Translator.
Variable explain_llm : Generator.




(** The state [translate_text] leaves: the one before, or that one with
    one more model loaded. *)
Lemma translate_text_state text src_lang tgt_lang tone domain σ :
  (translate_text pipeline text src_lang tgt_lang tone domain σ).2 = σ
  ∨ ∃ key model_name,
      (translate_text pipeline text src_lang tgt_lang tone domain σ).2
      = loaded pipeline key model_name σ.
Proof.
  destruct (decide (strip (or_empty text) = "")) as [He|Hne].
  { left. by rewrite translate_text_empty. }
  destruct (decide (src_lang = tgt_lang)) as [->|Hd].
  { left. by rewrite translate_text_same. }
  rewrite translate_text_distinct by done.
  destruct (LANG_CODES !! src_lang) as [src_code|]; [|by left].
  destruct (LANG_CODES !! tgt_lang) as [tgt_code|]; [|by left].
  destruct (get_translation_pipeline_outcome pipeline src_code tgt_code σ)
    as [[_ ->]|[(m & t & _ & _ & ->)|(m & _ & _ & ->)]]; simpl; eauto.
Qed.

Lemma translate_text_loads text src_lang tgt_lang tone domain σ :
  (length (pipeline_calls (translate_text pipeline text src_lang tgt_lang tone domain σ).2)
   ≤ length (pipeline_calls σ) + 1)%nat.
Proof.
  destruct (translate_text_state text src_lang tgt_lang tone domain σ)
    as [-> | (key & m & ->)]; simpl; [lia|].
  rewrite length_app. simpl. lia.
Qed.

End Returns.



(** X15: with the same name as source and target language, registered or
    not, [back_translate] returns the trimmed text as both components and
    loads nothing; the backward component is what
    [translate_text(forward, L, L, "Neutral", "General")] returns. *)
Theorem back_translate_identity pipeline (text L tone domain : string) σ :
  strip text ≠ "" →
  back_translate pipeline (Some text) L L tone domain σ
  = (Ok (strip text, strip text), σ) ∧
  translate_text pipeline (Some (strip text)) L L "Neutral" "General" σ
  = (Ok (strip text), σ).
Proof.
  intros Hne. split.
  - unfold back_translate. rewrite or_empty_Some.
    apply truthy_true in Hne as ->. simpl.
    by rewrite bool_decide_eq_true_2.
  - rewrite translate_text_same_str by (by rewrite strip_idemp).
    by rewrite strip_idemp.
Qed.

Lemma back_translate_identity_witness :
  strip " Hej " ≠ "" ∧
  back_translate stub_pipeline (Some " Hej ") "Swedish" "Swedish" "Formal" "Casual" init_state
  = (Ok ("Hej", "Hej"), init_state).
Proof.
  assert (strip " Hej " ≠ "") as Hne by (vm_compute; discriminate).
  split; [exact Hne|].
  exact (proj1 (back_translate_identity stub_pipeline " Hej " "Swedish"
                  "Formal" "Casual" init_state Hne)).
Defined.



(** X17: a click loads at most one model, and a click of the
    back-translation form at most two. *)
Theorem loads_per_click pipeline explain_llm c σ :
  (length (pipeline_calls (handle pipeline explain_llm c σ))
   ≤ length (pipeline_calls σ)
     + match c with
       | BackTranslateClick _ _ _ _ _ => 2
       | _ => 1
       end)%nat.
Proof.
  destruct c as [text src tgt tone domain do_explain
                |text src_lang tgt_lang tone domain
                |src_text user_translation src_lang tgt_lang]; simpl.
  - rewrite translate_and_explain_state. apply translate_text_loads.
  - unfold back_translate.
    destruct (truthy (strip (or_empty text))); simpl; [|lia].
    case_bool_decide; simpl; [lia|]. unfold bind.
    pose proof (translate_text_loads pipeline (Some (strip (or_empty text)))
                  src_lang tgt_lang tone domain σ) as H1.
    destruct (translate_text pipeline (Some (strip (or_empty text)))
                src_lang tgt_lang tone domain σ) as [[forward|e] σ1]; simpl in *; [|lia].
    pose proof (translate_text_loads pipeline (Some forward)
                  tgt_lang src_lang "Neutral" "General" σ1) as H2.
    destruct (translate_text pipeline (Some forward)
                tgt_lang src_lang "Neutral" "General" σ1) as [[backward|e] σ2];
      simpl in *; lia.
  - destruct (learning_mode_feedback_state pipeline explain_llm
                src_text user_translation src_lang tgt_lang σ) as [-> | ->]; [lia|].
    apply translate_text_loads.
Qed.

(** ** Which texts are empty once trimmed *)

Lemma blank_one w : w ∈ WHITESPACE → blank w.
Proof.
  intros Hw. rewrite <- (append_nil_r w).
  apply blank_space; [done|apply blank_empty].
Qed.

Lemma blank_append s1 s2 : blank s1 → blank s2 → blank (s1 +:+ s2).
Proof.
  induction 1 as [|w s1 Hw Hs1 IH]; intros Hs2; [done|].
  rewrite append_assoc. constructor; auto.
Qed.

Lemma rev_eq_nil s : String.rev s = "" → s = "".
Proof. intros Hs. by rewrite <- (rev_involutive s), Hs. Qed.

(** What [drop_leading] removes is whitespace, from the start with the
    table and from the end with the reversed table. *)
Lemma drop_leading_removes_blank n s :
  ∃ p, blank p ∧ s = p +:+ drop_leading WHITESPACE n s.
Proof.
  revert s. induction n as [|n IH]; intros s; cbn [drop_leading];
    [exists ""; split; [apply blank_empty|done]|].
  destruct (drop_one WHITESPACE s) as [rest|] eqn:Hd;
    [|exists ""; split; [apply blank_empty|done]].
  apply drop_one_Some in Hd as (w & Hw & ->).
  destruct (IH rest) as (p & Hp & Hrest). exists (w +:+ p). split.
  - by constructor.
  - by rewrite append_assoc, <- Hrest.
Qed.

Lemma drop_trailing_removes_blank n s :
  ∃ p, blank (String.rev p) ∧ s = p +:+ drop_leading (String.rev <$> WHITESPACE) n s.
Proof.
  revert s. induction n as [|n IH]; intros s; cbn [drop_leading];
    [exists ""; split; [apply blank_empty|done]|].
  destruct (drop_one (String.rev <$> WHITESPACE) s) as [rest|] eqn:Hd;
    [|exists ""; split; [apply blank_empty|done]].
  apply drop_one_Some in Hd as (w' & (w & -> & Hw)%list_elem_of_fmap & ->).
  destruct (IH rest) as (p & Hp & Hrest). exists (String.rev w +:+ p). split.
  - rewrite rev_append, rev_involutive. apply blank_append; [done|by apply blank_one].
  - by rewrite append_assoc, <- Hrest.
Qed.

Lemma strip_empty_blank s : strip s = "" → blank s.
Proof.
  unfold strip, rstrip. intros Hs%rev_eq_nil.
  destruct (drop_leading_removes_blank (String.length s) s) as (p & Hp & Hl).
  fold (lstrip s) in Hl.
  destruct (drop_trailing_removes_blank (String.length (lstrip s)) (String.rev (lstrip s)))
    as (q & Hq & Hr).
  rewrite Hs, append_nil_r in Hr. rewrite <- Hr, rev_involutive in Hq.
  rewrite Hl. by apply blank_append.
Qed.

(** X18: the texts that [translate_text] answers with the prompt whatever
    the languages, the hints and the state are exactly the texts made of
    whitespace only, the empty text among them. *)
Theorem translate_text_prompt_iff_blank pipeline (text : string) :
  (∀ src_lang tgt_lang tone domain σ,
     translate_text pipeline (Some text) src_lang tgt_lang tone domain σ = (Ok PROMPT, σ))
  ↔ blank text.
Proof.
  split.
  - intros Hprompt. apply strip_empty_blank.
    destruct (decide (strip text = "")) as [He|Hne]; [done|].
    specialize (Hprompt "Klingon" "French" "Neutral" "General" init_state).
    rewrite translate_text_distinct in Hprompt by (by rewrite ?or_empty_Some).
    discriminate.
  - intros Hb src_lang tgt_lang tone domain σ.
    apply translate_text_empty. rewrite or_empty_Some. by apply strip_blank.
Qed.
